(** * Terraform provider for Cloudflare: zone cache variants and WAF groups

    A shallow embedding of two callback families of the provider:

    - [ZoneCacheVariants]: the read, update and delete callbacks of the
      zone cache variants resource
      (cloudflare/resource_cloudflare_zone_cache_variants.go);
    - [WAFGroups]: the read callback of the WAF groups data source and its
      filter expansion (package sdkv2provider).

    The callbacks work on a [schema.ResourceData] handle and a client handle.
    Both are mutable objects in Go; here a callback is a computation in a
    small state monad whose state holds the resource data and the log of the
    API requests issued so far.  The API client is external: its answers are
    given by a record of oracles, one per method. *)

From stdpp Require Import base option list gmap strings.
From Stdlib Require Import ZArith Ascii String.

Open Scope string_scope.
Open Scope list_scope.

(** ** The pieces of Go the callbacks rely on *)

Module Go.

(** An [error] is represented by the text that [err.Error()] returns. *)
Definition error : Type := string.

(** A Go result pair [(v, err)] with [err == nil] or [err != nil]. *)
Inductive result (A : Type) : Type :=
| Ok (a : A)
| Err (e : error).
Arguments Ok {A} a.
Arguments Err {A} e.

(** [strings.HasPrefix]. *)
Fixpoint HasPrefix (s prefix : string) : bool :=
  match prefix, s with
  | EmptyString, _ => true
  | String _ _, EmptyString => false
  | String p prefix', String c s' =>
      if Ascii.eqb c p then HasPrefix s' prefix' else false
  end.

(** [strings.Contains]: [substr] occurs somewhere within [s]. *)
Fixpoint Contains (s substr : string) : bool :=
  HasPrefix s substr ||
  match s with
  | EmptyString => false
  | String _ s' => Contains s' substr
  end.

End Go.

Import Go.

(** ** Diagnostics *)

Module diag.

(** What a callback hands back on failure.  The source builds these with
    [fmt.Errorf(format, args..., err)] and [diag.FromErr(err)]; the format
    string and its arguments are kept apart instead of being rendered. *)
Inductive Diagnostic : Type :=
| Errorf (format : string) (args : list string) (cause : error)
| FromErr (cause : error)
| FromErrorf (format : string) (cause : error).

(** [diag.Diagnostics]: [None] is the nil value, that is, success. *)
Definition Diagnostics : Type := option Diagnostic.

End diag.

Import diag.

(** ** The Cloudflare API client, as far as the callbacks use it *)

Module cloudflare.

Record ZoneCacheVariantsValues : Type := {
  Avif : list string;
  Bmp : list string;
  Gif : list string;
  Jpeg : list string;
  Jpg : list string;
  Jp2 : list string;
  Jpg2 : list string;
  Png : list string;
  Tif : list string;
  Tiff : list string;
  Webp : list string
}.

Record ZoneCacheVariants : Type := { Value : ZoneCacheVariantsValues }.

Record WAFPackage : Type := { PackageID : string }.

Record WAFGroup : Type := {
  ID : string;
  Name : string;
  Description : string;
  RulesCount : Z;
  ModifiedRulesCount : Z;
  Mode : string
}.

(** The answers of the remote API, one oracle per client method
    ([ZoneCacheVariants_] is the method [ZoneCacheVariants], whose name the
    response type already has). *)
Record API : Type := {
  ZoneCacheVariants_ : string -> result ZoneCacheVariants;
  UpdateZoneCacheVariants :
    string -> ZoneCacheVariantsValues -> result ZoneCacheVariants;
  DeleteZoneCacheVariants : string -> option error;
  ListWAFPackages : string -> result (list WAFPackage);
  ListWAFGroups : string -> string -> result (list WAFGroup)
}.

(** One entry of the request log per client method called. *)
Inductive Request : Type :=
| ReqZoneCacheVariants (zoneID : string)
| ReqUpdateZoneCacheVariants (zoneID : string) (v : ZoneCacheVariantsValues)
| ReqDeleteZoneCacheVariants (zoneID : string)
| ReqListWAFPackages (zoneID : string)
| ReqListWAFGroups (zoneID packageID : string).

End cloudflare.

Import cloudflare.

(** ** Resource data *)

Module schema.

(** A value stored under a key of a [map[string]interface{}] item. *)
Inductive AttrValue : Type :=
| VString (s : string)
| VInt (n : Z).

(** [schema.ResourceData].  The schema fixes the type of every attribute,
    so there is one store per attribute type, each keyed by attribute name:
    strings, sets of strings (a set is held as the list its [List()]
    returns), lists of nested blocks (an element is nil or a map of string
    values) and lists of computed items. *)
Record ResourceData : Type := {
  Id : string;
  stringAttrs : gmap string string;
  setAttrs : gmap string (list string);
  blockAttrs : gmap string (list (option (gmap string string)));
  itemAttrs : gmap string (list (gmap string AttrValue))
}.

Definition d_SetId (d : ResourceData) (v : string) : ResourceData :=
  {| Id := v;
     stringAttrs := stringAttrs d;
     setAttrs := setAttrs d;
     blockAttrs := blockAttrs d;
     itemAttrs := itemAttrs d |}.

(** [d.Get(key).(string)]: the zero value when the attribute is unset. *)
Definition d_Get_string (d : ResourceData) (key : string) : string :=
  default "" (stringAttrs d !! key).

(** [d.Get(key)] of a list of nested blocks. *)
Definition d_Get_blocks (d : ResourceData) (key : string)
  : list (option (gmap string string)) :=
  default [] (blockAttrs d !! key).

(** [d.GetOk(key)] of a set attribute, with the [List()] of the set value
    already taken: the flag says that the attribute is set to a value other
    than the zero value (the empty set). *)
Definition d_GetOk_set (d : ResourceData) (key : string)
  : list string * bool :=
  match setAttrs d !! key with
  | Some l => (l, negb (bool_decide (l = [])))
  | None => ([], false)
  end.

(** [d.Set(key, value)] of a set attribute.  With typed stores the value
    always fits the attribute, so no error comes back.  The store keeps the
    list as it was written; the SDK builds a set from it, so what is read
    back there is the list without duplicates, in the order of the set. *)
Definition d_Set_set (d : ResourceData) (key : string) (v : list string)
  : option error * ResourceData :=
  (None,
   {| Id := Id d;
      stringAttrs := stringAttrs d;
      setAttrs := <[key := v]> (setAttrs d);
      blockAttrs := blockAttrs d;
      itemAttrs := itemAttrs d |}).

(** [d.Set(key, value)] of a list of computed items. *)
Definition d_Set_items (d : ResourceData) (key : string)
    (v : list (gmap string AttrValue)) : option error * ResourceData :=
  (None,
   {| Id := Id d;
      stringAttrs := stringAttrs d;
      setAttrs := setAttrs d;
      blockAttrs := blockAttrs d;
      itemAttrs := <[key := v]> (itemAttrs d) |}).

End schema.

Import schema.

(** ** Callbacks as computations *)

Module Callback.

(** What a callback can change: the resource data it was handed, and the
    log of requests sent to the API (oldest first). *)
Record World : Type := {
  rd : ResourceData;
  log : list Request
}.

(** A statement either falls through with a value or executes [return]. *)
Inductive Outcome (A : Type) : Type :=
| Next (a : A)
| Return (ds : Diagnostics).
Arguments Next {A} a.
Arguments Return {A} ds.

Definition M (A : Type) : Type := World -> Outcome A * World.

#[export] Instance M_ret : MRet M := fun A a w => (Next a, w).

#[export] Instance M_bind : MBind M := fun A B f m w =>
  match m w with
  | (Next a, w') => f a w'
  | (Return ds, w') => (Return ds, w')
  end.

(** [return ds]. *)
Definition return_ {A : Type} (ds : Diagnostics) : M A :=
  fun w => (Return ds, w).

(** Read the resource data. *)
Definition get_d : M ResourceData := fun w => (Next (rd w), w).

(** Apply a mutation of the resource data that may report an error. *)
Definition set_d (f : ResourceData -> option error * ResourceData)
  : M (option error) :=
  fun w => let '(e, d') := f (rd w) in
           (Next e, {| rd := d'; log := log w |}).

(** [d.SetId(v)]. *)
Definition SetId (v : string) : M unit :=
  fun w => (Next tt, {| rd := d_SetId (rd w) v; log := log w |}).

(** Send a request: it is logged, and the oracle's answer comes back. *)
Definition request {A : Type} (r : Request) (answer : A) : M A :=
  fun w => (Next answer, {| rd := rd w; log := log w ++ [r] |}).

(** A function body never falls off its end: it has type [M void]. *)
Definition void : Type := Empty_set.

(** Calling a callback: its diagnostics and the world it leaves. *)
Definition call (body : M void) (w : World) : Diagnostics * World :=
  match body w with
  | (Return ds, w') => (ds, w')
  | (Next v, _) => match v with end
  end.

End Callback.

Import Callback.

(** ** cloudflare/resource_cloudflare_zone_cache_variants.go *)

Module ZoneCacheVariants.

(** Modelled from the spec: [expandInterfaceToStringList] is a helper of
    this repository that is not among the sources.  The spec describes it
    as expanding a set into a plain collection: the elements of the set's
    list, each asserted to be a string, in the same order. *)
Definition expandInterfaceToStringList (l : list string) : list string :=
  (fun v => v) <$> l.

(** [if err := d.Set(key, v); err != nil { return fmt.Errorf(format, err) }] *)
Definition set_or_return (key : string) (v : list string) (format : string)
  : M unit :=
  err ← set_d (fun d => d_Set_set d key v);
  match err with
  | Some err => return_ (Some (Errorf format [] err))
  | None => mret tt
  end.

Definition resourceCloudflareZoneCacheVariantsRead (meta : API) : M void :=
  let client := meta in
  d ← get_d;
  r ← request (ReqZoneCacheVariants (Id d)) (ZoneCacheVariants_ client (Id d));
  match r with
  | Err err =>
      if Contains err "HTTP status 404" then
        SetId "";;
        return_ None
      else
        d ← get_d;
        return_ (Some (Errorf "Error reading cache variants for zone %q: %w"
                              [Id d] err))
  | Ok zoneCacheVariants =>
      let value := Value zoneCacheVariants in
      set_or_return "avif" (Avif value) "failed to set avif: %w";;
      set_or_return "bmp" (Bmp value) "failed to set bmp: %w";;
      set_or_return "gif" (Gif value) "failed to set gif: %w";;
      set_or_return "jpeg" (Jpeg value) "failed to set jpeg: %w";;
      set_or_return "jpg" (Jpg value) "failed to set jpg: %w";;
      set_or_return "jp2" (Jp2 value) "failed to set jp2: %w";;
      set_or_return "jpg2" (Jpg2 value) "failed to set jpg2: %w";;
      set_or_return "png" (Png value) "failed to set png: %w";;
      set_or_return "tif" (Tif value) "failed to set tif: %w";;
      set_or_return "tiff" (Tiff value) "failed to set tiff: %w";;
      set_or_return "webp" (Webp value) "failed to set webp: %w";;
      return_ None
  end.

(** [if value, ok := d.GetOk(key); ok { field = expand... }], giving the
    field's new contents; [zero] is what the field held before. *)
Definition fromResource (d : ResourceData) (key : string)
    (zero : list string) : list string :=
  let '(value, ok) := d_GetOk_set d key in
  if ok then expandInterfaceToStringList value else zero.

Definition cacheVariantsValuesFromResource (d : ResourceData)
  : ZoneCacheVariantsValues :=
  let nil_ : list string := [] in
  {| Avif := fromResource d "avif" nil_;
     Bmp := fromResource d "bmp" nil_;
     Gif := fromResource d "gif" nil_;
     Jpeg := fromResource d "jpeg" nil_;
     Jpg := fromResource d "jpg" nil_;
     Jp2 := fromResource d "jp2" nil_;
     Jpg2 := fromResource d "jpg2" nil_;
     Png := fromResource d "png" nil_;
     Tif := fromResource d "tif" nil_;
     Tiff := fromResource d "tiff" nil_;
     Webp := fromResource d "webp" nil_ |}.

Definition resourceCloudflareZoneCacheVariantsUpdate (meta : API) : M void :=
  let client := meta in
  d ← get_d;
  let zoneID := d_Get_string d "zone_id" in
  SetId zoneID;;
  d ← get_d;
  let variantsValue := cacheVariantsValuesFromResource d in
  r ← request (ReqUpdateZoneCacheVariants (Id d) variantsValue)
              (UpdateZoneCacheVariants client (Id d) variantsValue);
  match r with
  | Err err =>
      d ← get_d;
      return_ (Some (Errorf "error setting cache variants for zone %q: %w"
                            [Id d] err))
  | Ok _ =>
      resourceCloudflareZoneCacheVariantsRead meta
  end.

Definition resourceCloudflareZoneCacheVariantsDelete (meta : API) : M void :=
  let client := meta in
  d ← get_d;
  err ← request (ReqDeleteZoneCacheVariants (Id d))
                (DeleteZoneCacheVariants client (Id d));
  match err with
  | Some err =>
      d ← get_d;
      return_ (Some (Errorf "error deleting cache variants for zone %v: %w"
                            [Id d] err))
  | None => return_ None
  end.

End ZoneCacheVariants.

(** ** Regular expressions *)

Module regexp.

(** Go's [regexp] package is external to the provider.  The callbacks use
    [regexp.Compile] and the [Match] method of a compiled expression only,
    so an engine is anything that provides the two. *)
Class Engine : Type := {
  Regexp : Type;
  Compile : string -> result Regexp;
  Match : Regexp -> string -> bool
}.

End regexp.

Import regexp.

(** ** The WAF groups data source (package sdkv2provider) *)

Module WAFGroups.

Section WithEngine.

Context `{E : Engine}.

(** [consts.ZoneIDSchemaKey], a constant declared outside the sources. *)
Variable ZoneIDSchemaKey : string.

(** [stringListChecksum], a helper declared outside the sources. *)
Variable stringListChecksum : list string -> string.

Record searchFilterWAFGroups : Type := {
  Name : option Regexp;
  Mode : string
}.

Definition expandFilterWAFGroups (d : list (option (gmap string string)))
  : result searchFilterWAFGroups :=
  let cfg := d in
  let filter := {| Name := None; Mode := "" |} in
  match cfg with
  | [] | None :: _ => Ok filter
  | Some m :: _ =>
      let named :=
        match m !! "name" with
        | Some name =>
            match Compile name with
            | Err err => Err err
            | Ok match_ => Ok {| Name := Some match_; Mode := Mode filter |}
            end
        | None => Ok filter
        end in
      match named with
      | Err err => Err err
      | Ok filter =>
          match m !! "mode" with
          | Some mode => Ok {| Name := Name filter; Mode := mode |}
          | None => Ok filter
          end
      end
  end.

(** The [map[string]interface{}] literal appended for a kept group. *)
Definition groupDetail (pkg : WAFPackage) (group : WAFGroup)
  : gmap string AttrValue :=
  list_to_map
    [("id", VString (ID group));
     ("name", VString (cloudflare.Name group));
     ("description", VString (Description group));
     ("mode", VString (cloudflare.Mode group));
     ("rules_count", VInt (RulesCount group));
     ("modified_rules_count", VInt (ModifiedRulesCount group));
     ("package_id", VString (PackageID pkg))].

(** [for _, group := range groupList { ... }], threading the two slices
    the loop appends to. *)
Fixpoint rangeGroupList (filter : searchFilterWAFGroups) (pkg : WAFPackage)
    (groupList : list WAFGroup)
    (acc : list string * list (gmap string AttrValue))
  : list string * list (gmap string AttrValue) :=
  match groupList with
  | [] => acc
  | group :: groupList' =>
      let '(groupIds, groupDetails) := acc in
      if match Name filter with
         | Some re => negb (Match re (cloudflare.Name group))
         | None => false
         end
      then rangeGroupList filter pkg groupList' acc (* continue *)
      else if bool_decide (Mode filter ≠ "")
              && bool_decide (Mode filter ≠ cloudflare.Mode group)
      then rangeGroupList filter pkg groupList' acc (* continue *)
      else
        let groupDetails := groupDetails ++ [groupDetail pkg group] in
        let groupIds := groupIds ++ [ID group] in
        rangeGroupList filter pkg groupList' (groupIds, groupDetails)
  end.

(** [for _, pkg := range pkgList { ... }]. *)
Fixpoint rangePkgList (client : API) (zoneID : string)
    (filter : searchFilterWAFGroups) (pkgList : list WAFPackage)
    (acc : list string * list (gmap string AttrValue))
  : M (list string * list (gmap string AttrValue)) :=
  match pkgList with
  | [] => mret acc
  | pkg :: pkgList' =>
      r ← request (ReqListWAFGroups zoneID (PackageID pkg))
                  (ListWAFGroups client zoneID (PackageID pkg));
      match r with
      | Err err => return_ (Some (FromErr err))
      | Ok groupList =>
          rangePkgList client zoneID filter pkgList'
                       (rangeGroupList filter pkg groupList acc)
      end
  end.

Definition dataSourceCloudflareWAFGroupsRead (meta : API) : M void :=
  let client := meta in
  d ← get_d;
  let zoneID := d_Get_string d ZoneIDSchemaKey in
  match expandFilterWAFGroups (d_Get_blocks d "filter") with
  | Err err => return_ (Some (FromErr err))
  | Ok filter =>
      let packageID := d_Get_string d "package_id" in
      pkgList ←
        (if bool_decide (packageID = "") then
           r ← request (ReqListWAFPackages zoneID)
                       (ListWAFPackages client zoneID);
           match r with
           | Err err => return_ (Some (FromErr err))
           | Ok pkgList => mret pkgList
           end
         else mret ([] ++ [{| PackageID := packageID |}]));
      acc ← rangePkgList client zoneID filter pkgList ([], []);
      let '(groupIds, groupDetails) := acc in
      err ← set_d (fun d => d_Set_items d "groups" groupDetails);
      match err with
      | Some err =>
          return_ (Some (FromErrorf "error setting WAF groups: %w" err))
      | None =>
          SetId (stringListChecksum groupIds);;
          return_ None
      end
  end.

End WithEngine.

Arguments searchFilterWAFGroups {E}.

End WAFGroups.

(** ** A small regular-expression engine

    An engine for a fragment of Go's regular-expression syntax: the
    assertions [^] (start of text) and [$] (end of text) and literal ASCII
    characters.  As in Go, matching is unanchored: an expression matches a
    text when it matches somewhere within it.  An expression that uses
    anything else is refused by this engine; a repetition operator at the
    very start is an error in Go as well.  The engine serves to run the
    callbacks on concrete inputs. *)

Module MiniRE.

Inductive inst : Type :=
| Bol
| Eol
| Lit (c : ascii).

Definition is_meta (c : ascii) : bool :=
  existsb (Ascii.eqb c) (list_ascii_of_string "\.+*?()|[]{}").

Definition is_repetition (c : ascii) : bool :=
  existsb (Ascii.eqb c) (list_ascii_of_string "*+?").

Fixpoint parse (s : string) : result (list inst) :=
  match s with
  | EmptyString => Ok []
  | String c s' =>
      if is_meta c || (128 <=? nat_of_ascii c)%nat then
        Err "error parsing regexp: outside the supported fragment"
      else
        match parse s' with
        | Err err => Err err
        | Ok prog =>
            Ok ((if Ascii.eqb c "^" then Bol
                 else if Ascii.eqb c "$" then Eol
                 else Lit c) :: prog)
        end
  end.

Definition compile (s : string) : result (list inst) :=
  match s with
  | String c _ =>
      if is_repetition c then
        Err "error parsing regexp: missing argument to repetition operator"
      else parse s
  | EmptyString => parse s
  end.

(** Does [prog] match a prefix of [s]?  [atStart] says that [s] is the
    whole text, that is, nothing was consumed yet. *)
Fixpoint matchHere (prog : list inst) (atStart : bool) (s : string) : bool :=
  match prog with
  | [] => true
  | Bol :: prog' => atStart && matchHere prog' atStart s
  | Eol :: prog' =>
      match s with
      | EmptyString => matchHere prog' atStart s
      | String _ _ => false
      end
  | Lit c :: prog' =>
      match s with
      | EmptyString => false
      | String c' s' => Ascii.eqb c c' && matchHere prog' false s'
      end
  end.

Fixpoint matchFrom (prog : list inst) (atStart : bool) (s : string) : bool :=
  matchHere prog atStart s ||
  match s with
  | EmptyString => false
  | String _ s' => matchFrom prog false s'
  end.

#[export] Instance engine : Engine := {|
  Regexp := list inst;
  Compile := compile;
  Match := fun re b => matchFrom re true b
|}.

End MiniRE.

(** ** Vocabulary for the statements *)

Module Variants.

Import ZoneCacheVariants.

(** The eleven variant attributes of the zone cache variants resource. *)
Inductive variant : Type :=
| avif | bmp | gif | jpeg | jpg | jp2 | jpg2 | png | tif | tiff | webp.

(** The attribute name of a variant in the resource data. *)
Definition key (v : variant) : string :=
  match v with
  | avif => "avif" | bmp => "bmp" | gif => "gif" | jpeg => "jpeg"
  | jpg => "jpg" | jp2 => "jp2" | jpg2 => "jpg2" | png => "png"
  | tif => "tif" | tiff => "tiff" | webp => "webp"
  end.

(** The field of a variant in the request payload. *)
Definition field (v : variant) : ZoneCacheVariantsValues -> list string :=
  match v with
  | avif => Avif | bmp => Bmp | gif => Gif | jpeg => Jpeg
  | jpg => Jpg | jp2 => Jp2 | jpg2 => Jpg2 | png => Png
  | tif => Tif | tiff => Tiff | webp => Webp
  end.

Definition all : list variant :=
  [avif; bmp; gif; jpeg; jpg; jp2; jpg2; png; tif; tiff; webp].

(** The resource data after every variant attribute was overwritten with
    the field of [value], in the order of [all]. *)
Definition refresh (value : ZoneCacheVariantsValues) (d : ResourceData)
  : ResourceData :=
  {| Id := Id d;
     stringAttrs := stringAttrs d;
     setAttrs :=
       foldl (fun m v => <[key v := field v value]> m) (setAttrs d) all;
     blockAttrs := blockAttrs d;
     itemAttrs := itemAttrs d |}.

(** The not-found test of the read callback. *)
Definition not_found (err : error) : bool := Contains err "HTTP status 404".

(** A zone whose cache variants the API does not know, and a failing API. *)
Definition gone : API := {|
  ZoneCacheVariants_ := fun _ => Err "HTTP status 404: not found";
  UpdateZoneCacheVariants := fun _ v => Ok {| Value := v |};
  DeleteZoneCacheVariants := fun _ => Some "HTTP status 404: not found";
  ListWAFPackages := fun _ => Err "unused";
  ListWAFGroups := fun _ _ => Err "unused"
|}.

Definition zone_data : ResourceData := {|
  Id := "023e105f4ecef8ad9ca31a8372d0c353";
  stringAttrs := {[ "zone_id" := "023e105f4ecef8ad9ca31a8372d0c353" ]};
  setAttrs := {[ "avif" := ["image/avif"; "image/webp"] ]};
  blockAttrs := ∅;
  itemAttrs := ∅
|}.

Definition zone_world : World := {| rd := zone_data; log := [] |}.

End Variants.

Module Matching.

Import WAFGroups.

Section WithEngine.

Context `{E : Engine}.

(** An item is kept only if all present criteria pass: the name matches
    the pattern, when there is one, and the mode equals the filter's,
    when that is not empty. *)
Definition passes (filter : searchFilterWAFGroups) (group : WAFGroup)
  : bool :=
  match Name filter with
  | Some re => Match re (cloudflare.Name group)
  | None => true
  end
  && (bool_decide (Mode filter = "")
      || bool_decide (cloudflare.Mode group = Mode filter)).

(** The groups the API lists for a package. *)
Definition listed (client : API) (zoneID : string) (pkg : WAFPackage)
  : list WAFGroup :=
  match ListWAFGroups client zoneID (PackageID pkg) with
  | Ok groupList => groupList
  | Err _ => []
  end.

(** The packages a read goes through: the one of [package_id], or all
    the packages the API lists for the zone. *)
Definition packages (client : API) (zoneID : string) (d : ResourceData)
  : list WAFPackage :=
  if bool_decide (d_Get_string d "package_id" = "") then
    match ListWAFPackages client zoneID with
    | Ok pkgList => pkgList
    | Err _ => []
    end
  else [{| PackageID := d_Get_string d "package_id" |}].

(** The groups of the packages [pkgs] that satisfy [keep], each with its
    package, in the order fetched. *)
Definition kept (keep : WAFGroup -> bool) (client : API)
    (zoneID : string) (pkgs : list WAFPackage)
  : list (WAFPackage * WAFGroup) :=
  pkg ← pkgs; (fun group => (pkg, group)) <$>
              List.filter keep (listed client zoneID pkg).

Definition detail (pg : WAFPackage * WAFGroup) : gmap string AttrValue :=
  groupDetail pg.1 pg.2.

End WithEngine.

(** The computed [groups] attribute. *)
Definition groups (d : ResourceData) : list (gmap string AttrValue) :=
  default [] (itemAttrs d !! "groups").

(** The string an item holds under [key]. *)
Definition item_string (key : string) (item : gmap string AttrValue)
  : option string :=
  match item !! key with
  | Some (VString s) => Some s
  | _ => None
  end.

(** The identifiers of the groups in the [groups] attribute, in order. *)
Definition matchedIds (d : ResourceData) : list string :=
  omap (item_string "id") (groups d).

(** A filter block without criteria: no block, a nil block, or a block
    whose name pattern and mode are empty or missing. *)
Definition no_criteria (cfg : list (option (gmap string string))) : Prop :=
  match cfg with
  | [] | None :: _ => True
  | Some m :: _ =>
      default "" (m !! "name") = "" ∧ default "" (m !! "mode") = ""
  end.

End Matching.

(** ** Sample inputs *)

Module Samples.

Definition group (id name mode : string) : WAFGroup := {|
  ID := id;
  cloudflare.Name := name;
  Description := "";
  RulesCount := 10;
  ModifiedRulesCount := 2;
  cloudflare.Mode := mode
|}.

Definition bots : list WAFGroup :=
  [group "g1" "bot-detect" "on";
   group "g2" "bot-detect" "off";
   group "g3" "sql-inject" "on"].

(** An API with one package that holds the three groups above. *)
Definition api : API := {|
  ZoneCacheVariants_ := fun _ => Err "unused";
  UpdateZoneCacheVariants := fun _ _ => Err "unused";
  DeleteZoneCacheVariants := fun _ => None;
  ListWAFPackages := fun _ => Ok [{| PackageID := "pkg" |}];
  ListWAFGroups := fun _ packageID =>
    if bool_decide (packageID = "pkg") then Ok bots
    else Err "HTTP status 404: no such package"
|}.

(** Resource data of the data source with the given filter block. *)
Definition query (package_id : string)
    (filter : list (option (gmap string string))) : World := {|
  rd := {| Id := "";
           stringAttrs := {[ "zone_id" := "zone"; "package_id" := package_id ]};
           setAttrs := ∅;
           blockAttrs := {[ "filter" := filter ]};
           itemAttrs := ∅ |};
  log := []
|}.

(** A checksum to run the read callback with: the identifiers joined by
    commas.  (The provider's own checksum is outside the sources.) *)
Definition joined (ids : list string) : string :=
  foldr (fun id rest => String.append id (String.append "," rest)) "" ids.

Definition read (w : World) : Diagnostics * World :=
  call (WAFGroups.dataSourceCloudflareWAFGroupsRead
          (E := MiniRE.engine) "zone_id" joined api) w.

End Samples.

(** ** The schema of the WAF groups data source *)

Module WAFGroupsSchema.

(** The value types of the plugin SDK that the schema uses. *)
Inductive ValueType : Type :=
| TypeString
| TypeInt
| TypeList.

(** [validation.StringInSlice(valid, ignoreCase)]. *)
Inductive Validator : Type :=
| StringInSlice (valid : list string) (ignoreCase : bool).

(** [schema.Schema], with the fields the declarations set.  [Elem] holds the
    schema of a nested resource. *)
#[warnings="-register-all"]
Inductive Schema : Type := mkSchema {
  Type_ : ValueType;
  Description : string;
  Required : bool;
  Optional : bool;
  Computed : bool;
  MaxItems : nat;
  ValidateFunc : option Validator;
  Elem : option (gmap string Schema)
}.

(** A schema literal that sets the type only. *)
Definition typed (t : ValueType) : Schema :=
  {| Type_ := t; Description := ""; Required := false; Optional := false;
     Computed := false; MaxItems := 0; ValidateFunc := None; Elem := None |}.

Definition optional (t : ValueType) : Schema :=
  {| Type_ := t; Description := ""; Required := false; Optional := true;
     Computed := false; MaxItems := 0; ValidateFunc := None; Elem := None |}.

(** The element schema of the [filter] block. *)
Definition filterElem : gmap string Schema :=
  list_to_map
    [("name", optional TypeString);
     ("mode",
      {| Type_ := TypeString; Description := ""; Required := false;
         Optional := true; Computed := false; MaxItems := 0;
         ValidateFunc := Some (StringInSlice ["on"; "off"] false);
         Elem := None |})].

(** The element schema of the computed [groups] list. *)
Definition groupsElem : gmap string Schema :=
  list_to_map
    [("id", optional TypeString);
     ("name", optional TypeString);
     ("description", optional TypeString);
     ("mode", optional TypeString);
     ("rules_count", optional TypeInt);
     ("modified_rules_count", optional TypeInt);
     ("package_id", optional TypeString)].

(** The [Schema] of [dataSourceCloudflareWAFGroups()]; its [ReadContext] is
    [WAFGroups.dataSourceCloudflareWAFGroupsRead]. *)
Definition dataSourceCloudflareWAFGroups (ZoneIDSchemaKey : string)
  : gmap string Schema :=
  list_to_map
    [(ZoneIDSchemaKey,
      {| Type_ := TypeString;
         Description := "The zone identifier to target for the resource.";
         Required := true; Optional := false; Computed := false;
         MaxItems := 0; ValidateFunc := None; Elem := None |});
     ("package_id", optional TypeString);
     ("filter",
      {| Type_ := TypeList; Description := ""; Required := false;
         Optional := true; Computed := false; MaxItems := 1;
         ValidateFunc := None; Elem := Some filterElem |});
     ("groups",
      {| Type_ := TypeList; Description := ""; Required := false;
         Optional := false; Computed := true; MaxItems := 0;
         ValidateFunc := None; Elem := Some groupsElem |})].

(** The SDK type of a value held by an item. *)
Definition typeOf (v : AttrValue) : ValueType :=
  match v with
  | VString _ => TypeString
  | VInt _ => TypeInt
  end.

End WAFGroupsSchema.

(** ** Requests of a read of the WAF groups *)

Module Requests.

(** The request for the packages of the zone, sent when no [package_id] is
    given. *)
Definition packageRequests (zoneID : string) (d : ResourceData)
  : list Request :=
  if bool_decide (d_Get_string d "package_id" = "") then
    [ReqListWAFPackages zoneID]
  else [].

(** One request for the groups of each package, in order. *)
Definition groupRequests (zoneID : string) (pkgs : list WAFPackage)
  : list Request :=
  (fun pkg => ReqListWAFGroups zoneID (PackageID pkg)) <$> pkgs.

(** The API lists the groups of the package. *)
Definition answered (client : API) (zoneID : string) (pkg : WAFPackage)
  : Prop :=
  ∃ groupList, ListWAFGroups client zoneID (PackageID pkg) = Ok groupList.

End Requests.

(** ** More sample inputs *)

Module MoreSamples.

Import ZoneCacheVariants Variants Samples.

(** An API that holds the cache variants [v] of every zone and accepts
    updates. *)
Definition stored (v : ZoneCacheVariantsValues) : API := {|
  ZoneCacheVariants_ := fun _ => Ok {| Value := v |};
  UpdateZoneCacheVariants := fun _ v' => Ok {| Value := v' |};
  DeleteZoneCacheVariants := fun _ => None;
  ListWAFPackages := fun _ => Ok [];
  ListWAFGroups := fun _ _ => Ok []
|}.

(** An API that fails every request. *)
Definition broken : API := {|
  ZoneCacheVariants_ := fun _ => Err "HTTP status 500: internal error";
  UpdateZoneCacheVariants := fun _ _ => Err "HTTP status 500: internal error";
  DeleteZoneCacheVariants := fun _ => Some "HTTP status 500: internal error";
  ListWAFPackages := fun _ => Err "HTTP status 500: internal error";
  ListWAFGroups := fun _ _ => Err "HTTP status 500: internal error"
|}.

Definition webp_only : ZoneCacheVariantsValues := {|
  Avif := []; Bmp := []; Gif := []; Jpeg := []; Jpg := []; Jp2 := [];
  Jpg2 := []; Png := []; Tif := []; Tiff := []; Webp := ["image/webp"]
|}.

(** An API with three packages: the groups of the second are not found. *)
Definition three_packages : API := {|
  ZoneCacheVariants_ := fun _ => Err "unused";
  UpdateZoneCacheVariants := fun _ _ => Err "unused";
  DeleteZoneCacheVariants := fun _ => None;
  ListWAFPackages := fun _ =>
    Ok [{| PackageID := "pkg" |}; {| PackageID := "lost" |};
        {| PackageID := "other" |}];
  ListWAFGroups := fun _ packageID =>
    if bool_decide (packageID = "lost") then
      Err "HTTP status 404: no such package"
    else Ok bots
|}.

(** The read callback of the WAF groups against a given API. *)
Definition read_with (client : API) (w : World) : Diagnostics * World :=
  call (WAFGroups.dataSourceCloudflareWAFGroupsRead
          (E := MiniRE.engine) "zone_id" joined client) w.

End MoreSamples.

(** * Properties *)

(** Unfold the operations of the callback monad and evaluate. *)
Ltac run :=
  unfold call, mbind, M_bind, mret, M_ret, get_d, set_d, SetId, request,
    return_;
  cbn.

(** ** Zone cache variants *)

Section ZoneCacheVariantsFacts.

Import ZoneCacheVariants Variants.

Variable meta : API.
Variable d : ResourceData.
Variable l : list Request.

(** The delete callback, in one equation. *)
Lemma Delete_call :
  call (resourceCloudflareZoneCacheVariantsDelete meta)
       {| rd := d; log := l |} =
  (match DeleteZoneCacheVariants meta (Id d) with
   | Some err =>
       Some (Errorf "error deleting cache variants for zone %v: %w"
                    [Id d] err)
   | None => None
   end,
   {| rd := d; log := l ++ [ReqDeleteZoneCacheVariants (Id d)] |}).
Proof.
  unfold resourceCloudflareZoneCacheVariantsDelete. run.
  destruct (DeleteZoneCacheVariants meta (Id d)); reflexivity.
Qed.

(** The read callback, in one equation. *)
Lemma Read_call :
  call (resourceCloudflareZoneCacheVariantsRead meta)
       {| rd := d; log := l |} =
  match ZoneCacheVariants_ meta (Id d) with
  | Err err =>
      if not_found err then
        (None,
         {| rd := d_SetId d ""; log := l ++ [ReqZoneCacheVariants (Id d)] |})
      else
        (Some (Errorf "Error reading cache variants for zone %q: %w"
                      [Id d] err),
         {| rd := d; log := l ++ [ReqZoneCacheVariants (Id d)] |})
  | Ok zoneCacheVariants =>
      (None,
       {| rd := refresh (Value zoneCacheVariants) d;
          log := l ++ [ReqZoneCacheVariants (Id d)] |})
  end.
Proof.
  unfold resourceCloudflareZoneCacheVariantsRead, set_or_return,
    not_found.
  run.
  destruct (ZoneCacheVariants_ meta (Id d)) as [z|err]; cbn.
  - reflexivity.
  - destruct (Contains err "HTTP status 404"); reflexivity.
Qed.

(** The update callback up to its last statement. *)
Lemma Update_call :
  let zoneID := d_Get_string d "zone_id" in
  let variantsValue := cacheVariantsValuesFromResource d in
  let w1 := {| rd := d_SetId d zoneID;
               log := l ++ [ReqUpdateZoneCacheVariants zoneID variantsValue] |} in
  call (resourceCloudflareZoneCacheVariantsUpdate meta)
       {| rd := d; log := l |} =
  match UpdateZoneCacheVariants meta zoneID variantsValue with
  | Err err =>
      (Some (Errorf "error setting cache variants for zone %q: %w"
                    [zoneID] err), w1)
  | Ok _ => call (resourceCloudflareZoneCacheVariantsRead meta) w1
  end.
Proof.
  unfold resourceCloudflareZoneCacheVariantsUpdate. run.
  change (cacheVariantsValuesFromResource (d_SetId d (d_Get_string d "zone_id")))
    with (cacheVariantsValuesFromResource d).
  destruct (UpdateZoneCacheVariants meta _ _); reflexivity.
Qed.

(** The read callback sends one request and only the not-found branch
    touches the identifier. *)
Lemma Read_call_log :
  log (call (resourceCloudflareZoneCacheVariantsRead meta)
            {| rd := d; log := l |}).2 =
  l ++ [ReqZoneCacheVariants (Id d)].
Proof.
  rewrite Read_call.
  destruct (ZoneCacheVariants_ meta (Id d)) as [z|err];
    [|destruct (not_found err)]; reflexivity.
Qed.

End ZoneCacheVariantsFacts.

Section ZoneCacheVariantsClaims.

Import ZoneCacheVariants Variants.

(** Setting the identifier does not change what the payload is built
    from. *)
Lemma fromResource_spec (d : ResourceData) (k : string) :
  fromResource d k [] =
  if (d_GetOk_set d k).2 then (d_GetOk_set d k).1 else [].
Proof.
  unfold fromResource, expandInterfaceToStringList.
  destruct (d_GetOk_set d k) as [value [|]]; cbn; [|done].
  by rewrite list_fmap_id.
Qed.

(** C7. The update callback builds the request payload from present fields
    only: each of the eleven variant fields holds the attribute's elements
    exactly when the attribute is set in state (as [GetOk] reports it) and
    is left at its zero value otherwise.  The callback sends one update
    request, keyed by the zone and carrying this payload; when the API
    accepts it, the callback goes on as the read callback does, and when
    the API fails, the error becomes the diagnostic. *)
Theorem update_payload_from_present_fields
    (meta : API) (d : ResourceData) (l : list Request) :
  let zoneID := d_Get_string d "zone_id" in
  let payload := cacheVariantsValuesFromResource d in
  let sent := l ++ [ReqUpdateZoneCacheVariants zoneID payload] in
  let done_ :=
    call (resourceCloudflareZoneCacheVariantsUpdate meta)
         {| rd := d; log := l |} in
  (∀ v : variant,
     field v payload =
     if (d_GetOk_set d (key v)).2 then (d_GetOk_set d (key v)).1 else [])
  ∧ match UpdateZoneCacheVariants meta zoneID payload with
    | Ok _ =>
        done_ = call (resourceCloudflareZoneCacheVariantsRead meta)
                     {| rd := d_SetId d zoneID; log := sent |}
        ∧ log done_.2 = sent ++ [ReqZoneCacheVariants zoneID]
    | Err err =>
        done_ =
        (Some (Errorf "error setting cache variants for zone %q: %w"
                      [zoneID] err),
         {| rd := d_SetId d zoneID; log := sent |})
    end.
Proof.
  intros zoneID payload sent done_. split.
  - intros v. subst payload.
    destruct v; cbn [field cacheVariantsValuesFromResource Avif Bmp Gif Jpeg
                       Jpg Jp2 Jpg2 Png Tif Tiff Webp key];
      apply fromResource_spec.
  - subst done_. rewrite Update_call. fold zoneID payload sent.
    destruct (UpdateZoneCacheVariants meta zoneID payload); [|done].
    split; [done|]. by rewrite Read_call_log.
Qed.

(** C9. When the read request fails with an error whose text contains
    "HTTP status 404", the read callback clears the identifier, returns no
    diagnostic and writes no attribute.  The delete callback has no such
    case: the same error from the delete request comes back as a
    diagnostic and the identifier stays. *)
Theorem read_not_found_clears_id
    (meta : API) (d : ResourceData) (l : list Request) (err : error) :
  Contains err "HTTP status 404" = true →
  (ZoneCacheVariants_ meta (Id d) = Err err →
   call (resourceCloudflareZoneCacheVariantsRead meta)
        {| rd := d; log := l |} =
   (None,
    {| rd := d_SetId d ""; log := l ++ [ReqZoneCacheVariants (Id d)] |}))
  ∧ (DeleteZoneCacheVariants meta (Id d) = Some err →
     call (resourceCloudflareZoneCacheVariantsDelete meta)
          {| rd := d; log := l |} =
     (Some (Errorf "error deleting cache variants for zone %v: %w"
                   [Id d] err),
      {| rd := d; log := l ++ [ReqDeleteZoneCacheVariants (Id d)] |})).
Proof.
  intros H404. split; intros Hanswer.
  - rewrite Read_call, Hanswer. unfold not_found. by rewrite H404.
  - by rewrite Delete_call, Hanswer.
Qed.

Lemma read_not_found_clears_id_witness :
  Contains "HTTP status 404: not found" "HTTP status 404" = true
  ∧ call (resourceCloudflareZoneCacheVariantsRead gone) zone_world =
    (None,
     {| rd := d_SetId zone_data "";
        log := [ReqZoneCacheVariants (Id zone_data)] |})
  ∧ (call (resourceCloudflareZoneCacheVariantsDelete gone) zone_world).1
    ≠ None.
Proof.
  destruct (read_not_found_clears_id gone zone_data []
              "HTTP status 404: not found" eq_refl) as [HR HD].
  split; [reflexivity|]. split.
  - apply HR. reflexivity.
  - unfold zone_world. rewrite HD; [discriminate|reflexivity].
Defined.

(** C1, as the code has it.  The delete callback sends one delete request
    keyed by the identifier.  Every error of that request, a not-found
    error included, comes back as a diagnostic; without an error there is
    no diagnostic.  In both cases the resource data, identifier included,
    is left as it was. *)
Theorem delete_surfaces_every_error
    (meta : API) (d : ResourceData) (l : list Request) :
  let done_ :=
    call (resourceCloudflareZoneCacheVariantsDelete meta)
         {| rd := d; log := l |} in
  done_.2 = {| rd := d; log := l ++ [ReqDeleteZoneCacheVariants (Id d)] |}
  ∧ match DeleteZoneCacheVariants meta (Id d) with
    | Some err =>
        done_.1 =
        Some (Errorf "error deleting cache variants for zone %v: %w"
                     [Id d] err)
    | None => done_.1 = None
    end.
Proof.
  intros done_. subst done_. rewrite Delete_call. split; [done|].
  by destruct (DeleteZoneCacheVariants meta (Id d)).
Qed.

(** C1 fails as stated: on a not-found error the delete callback returns a
    diagnostic and keeps the identifier. *)
Lemma delete_not_found_counterexample :
  let done_ :=
    call (resourceCloudflareZoneCacheVariantsDelete gone) zone_world in
  DeleteZoneCacheVariants gone (Id zone_data)
  = Some "HTTP status 404: not found"
  ∧ Contains "HTTP status 404: not found" "HTTP status 404" = true
  ∧ ¬ (done_.1 = None ∧ Id (rd done_.2) = "").
Proof.
  split; [reflexivity|]. split; [reflexivity|].
  intros [Hds _]. vm_compute in Hds. discriminate Hds.
Qed.

(** C10, as the code has it.  The update callback sets the identifier to
    [zone_id] before it sends the update request, which is keyed by it.
    When the request fails, the diagnostic is returned and the identifier
    is [zone_id]: nothing is rolled back.  When it succeeds, the identifier
    is [zone_id] after the callback returns, unless the read that follows
    gets a not-found error, which clears it. *)
Theorem update_sets_id_before_request
    (meta : API) (d : ResourceData) (l : list Request) :
  let zoneID := d_Get_string d "zone_id" in
  let payload := cacheVariantsValuesFromResource d in
  let done_ :=
    call (resourceCloudflareZoneCacheVariantsUpdate meta)
         {| rd := d; log := l |} in
  log done_.2 !! List.length l = Some (ReqUpdateZoneCacheVariants zoneID payload)
  ∧ match UpdateZoneCacheVariants meta zoneID payload with
    | Err err =>
        done_.1 =
        Some (Errorf "error setting cache variants for zone %q: %w"
                     [zoneID] err)
        ∧ Id (rd done_.2) = zoneID
    | Ok _ =>
        match ZoneCacheVariants_ meta zoneID with
        | Err err =>
            Id (rd done_.2) = if not_found err then "" else zoneID
        | Ok _ => Id (rd done_.2) = zoneID
        end
    end.
Proof.
  intros zoneID payload done_. subst done_. rewrite Update_call.
  fold zoneID payload.
  assert (Hsent : ∀ rest : list Request,
             (l ++ ReqUpdateZoneCacheVariants zoneID payload :: rest)
               !! List.length l
             = Some (ReqUpdateZoneCacheVariants zoneID payload)).
  { intros rest. by rewrite list_lookup_middle. }
  destruct (UpdateZoneCacheVariants meta zoneID payload) as [z|err].
  - rewrite Read_call. cbn [Id d_SetId].
    destruct (ZoneCacheVariants_ meta zoneID) as [z'|err];
      [|destruct (not_found err)]; cbn; rewrite <- app_assoc;
      (split; [apply Hsent|done]).
  - cbn. split; [apply Hsent|done].
Qed.

(** C10 fails as stated: the update request succeeds, the read that
    follows gets a not-found error, and the identifier is empty, not
    [zone_id], when the callback returns. *)
Lemma update_id_counterexample :
  let done_ :=
    call (resourceCloudflareZoneCacheVariantsUpdate gone) zone_world in
  d_Get_string zone_data "zone_id" = "023e105f4ecef8ad9ca31a8372d0c353"
  ∧ done_.1 = None
  ∧ Id (rd done_.2) = ""
  ∧ Id (rd done_.2) ≠ d_Get_string zone_data "zone_id".
Proof.
  vm_compute. repeat split; discriminate.
Qed.

End ZoneCacheVariantsClaims.

(** ** WAF groups *)

Section WAFGroupsFacts.

Import WAFGroups Matching.

Context `{E : Engine}.
Variable ZoneIDSchemaKey : string.
Variable stringListChecksum : list string → string.

Local Abbreviation Read := (dataSourceCloudflareWAFGroupsRead
                    ZoneIDSchemaKey stringListChecksum).

(** The inner loop appends the groups that pass, in order. *)
Lemma rangeGroupList_spec filter pkg groupList groupIds groupDetails :
  rangeGroupList filter pkg groupList (groupIds, groupDetails) =
  (groupIds ++ (ID <$> List.filter (passes filter) groupList),
   groupDetails
     ++ (groupDetail pkg <$> List.filter (passes filter) groupList)).
Proof.
  revert groupIds groupDetails.
  induction groupList as [|group groupList IH]; intros groupIds groupDetails.
  - cbn. by rewrite !app_nil_r.
  - cbn [rangeGroupList List.filter].
    destruct (passes filter group) eqn:Hp; unfold passes in Hp;
      destruct (Name filter) as [re|];
      [destruct (Match re (cloudflare.Name group))| |
       destruct (Match re (cloudflare.Name group))|];
      cbn [negb andb] in *; try discriminate Hp;
      repeat case_bool_decide; cbn [andb orb negb] in *;
      try discriminate Hp; try congruence; try apply IH;
      rewrite IH, !fmap_cons, <- !app_assoc; reflexivity.
Qed.

(** The outer loop, when it runs to its end. *)
Lemma rangePkgList_Next client zoneID filter pkgList acc w acc' w' :
  rangePkgList client zoneID filter pkgList acc w = (Next acc', w') →
  let ks := kept (passes filter) client zoneID pkgList in
  acc' = (acc.1 ++ ((ID ∘ snd) <$> ks), acc.2 ++ (detail <$> ks))
  ∧ rd w' = rd w.
Proof.
  revert acc w.
  induction pkgList as [|pkg pkgList IH]; intros [groupIds groupDetails] w.
  - cbn. intros [= <- <-]. by rewrite !app_nil_r.
  - cbn [rangePkgList]. run.
    unfold kept; cbn [mbind list_bind]; fold (kept (passes filter) client zoneID pkgList).
    unfold listed at 1 2.
    destruct (ListWAFGroups client zoneID (PackageID pkg)) as [groupList|err];
      [|discriminate].
    rewrite rangeGroupList_spec. intros Hrest.
    apply IH in Hrest as [-> ->]. cbn [fst snd rd].
    split; [|done].
    rewrite !fmap_app, <- !list_fmap_compose, !app_assoc. reflexivity.
Qed.

(** The outer loop returns early with a diagnostic only. *)
Lemma rangePkgList_Return client zoneID filter pkgList acc w ds w' :
  rangePkgList client zoneID filter pkgList acc w = (Return ds, w') →
  ds ≠ None.
Proof.
  revert acc w.
  induction pkgList as [|pkg pkgList IH]; intros acc w.
  - discriminate.
  - cbn [rangePkgList]. run.
    destruct (ListWAFGroups client zoneID (PackageID pkg)) as [groupList|err].
    + apply IH.
    + by intros [= <- _].
Qed.

#[local] Arguments rangePkgList : simpl never.
#[local] Arguments kept : simpl never.

(** What a successful read leaves behind. *)
Lemma Read_success meta d l w' :
  call (Read meta) {| rd := d; log := l |} = (None, w') →
  ∃ filter,
    expandFilterWAFGroups (d_Get_blocks d "filter") = Ok filter
    ∧ let zoneID := d_Get_string d ZoneIDSchemaKey in
      let ks := kept (passes filter) meta zoneID (packages meta zoneID d) in
      groups (rd w') = detail <$> ks
      ∧ Id (rd w') = stringListChecksum ((ID ∘ snd) <$> ks).
Proof.
  unfold dataSourceCloudflareWAFGroupsRead, packages. run.
  set (zoneID := d_Get_string d ZoneIDSchemaKey).
  destruct (expandFilterWAFGroups (d_Get_blocks d "filter"))
    as [filter|err]; [|discriminate].
  intros Hcall. exists filter. split; [done|].
  revert Hcall. case_bool_decide as Hpkg; cbn;
    [destruct (ListWAFPackages meta zoneID) as [pkgList|err];
     [|discriminate]|].
  all: match goal with
       | |- context [rangePkgList ?c ?z ?f ?p ?a ?w] =>
           destruct (rangePkgList c z f p a w)
             as [[[groupIds groupDetails]|ds] w1] eqn:Hloop
       end.
  all: try (apply rangePkgList_Return in Hloop; by intros [= -> _]).
  all: apply rangePkgList_Next in Hloop as [[= -> ->] Hrd]; cbn;
    intros [= <-]; cbn; rewrite Hrd; cbn;
    unfold groups; cbn; by rewrite lookup_insert_eq.
Qed.

End WAFGroupsFacts.

Section WAFGroupsClaims.

Import WAFGroups Matching.

Context `{E : Engine}.
Variable ZoneIDSchemaKey : string.
Variable stringListChecksum : list string → string.

Local Abbreviation Read :=
  (dataSourceCloudflareWAFGroupsRead ZoneIDSchemaKey stringListChecksum).

(** The filter built from a block, when its pattern compiles. *)
Lemma expandFilterWAFGroups_Ok m rest filter :
  expandFilterWAFGroups (Some m :: rest) = Ok filter →
  Mode filter = default "" (m !! "mode")
  ∧ match m !! "name" with
    | Some pat => ∃ re, Compile pat = Ok re ∧ Name filter = Some re
    | None => Name filter = None
    end.
Proof.
  unfold expandFilterWAFGroups.
  destruct (m !! "name") as [pat|];
    [destruct (Compile pat) as [re|err]; [|discriminate]|];
    destruct (m !! "mode") as [mode|]; intros [= <-]; cbn; eauto.
Qed.

(** What an item of the [groups] attribute holds. *)
Lemma groupDetail_id pkg group :
  groupDetail pkg group !! "id" = Some (VString (ID group)).
Proof. reflexivity. Qed.

Lemma groupDetail_name pkg group :
  groupDetail pkg group !! "name" = Some (VString (cloudflare.Name group)).
Proof. reflexivity. Qed.


Lemma matchedIds_details (ks : list (WAFPackage * WAFGroup)) :
  omap (item_string "id") (detail <$> ks) = (ID ∘ snd) <$> ks.
Proof.
  induction ks as [|[pkg group] ks IH]; [done|].
  rewrite !fmap_cons. cbn [omap list_omap]. unfold item_string at 1, detail at 1.
  cbn [fst snd]. rewrite groupDetail_id. cbn [omap list_omap].
  f_equal. exact IH.
Qed.

(** Whatever is kept satisfies the test it was kept by. *)
Lemma elem_of_kept keep client zoneID pkgs pg :
  pg ∈ kept keep client zoneID pkgs → keep pg.2 = true.
Proof.
  unfold kept. rewrite list_elem_of_bind.
  intros (pkg & Hin & _). apply list_elem_of_fmap in Hin as (group & -> & Hin).
  apply list_elem_of_In, filter_In in Hin. tauto.
Qed.

(** Keeping everything is listing everything. *)
Lemma kept_all keep client zoneID pkgs :
  (∀ group, keep group = true) →
  detail <$> kept keep client zoneID pkgs =
  pkg ← pkgs; groupDetail pkg <$> listed client zoneID pkg.
Proof.
  intros Hall. unfold kept.
  induction pkgs as [|pkg pkgs IH]; [done|].
  cbn [mbind list_bind]. rewrite fmap_app, IH. f_equal.
  rewrite <- list_fmap_compose. f_equal.
  rewrite forallb_filter_id; [done|].
  apply forallb_forall. auto.
Qed.

(** C2. When the filter block holds a name that does not compile, the read
    callback returns the compile error as a diagnostic and leaves the world
    as it found it: no request was sent, neither [ListWAFPackages] nor
    [ListWAFGroups], and no attribute was written. *)
Theorem malformed_pattern_fails_before_any_request
    (meta : API) (d : ResourceData) (l : list Request)
    (m : gmap string string) (rest : list (option (gmap string string)))
    (pat : string) (err : error) :
  d_Get_blocks d "filter" = Some m :: rest →
  m !! "name" = Some pat →
  Compile pat = Err err →
  call (Read meta) {| rd := d; log := l |} =
  (Some (FromErr err), {| rd := d; log := l |}).
Proof.
  intros Hcfg Hname Hpat.
  unfold dataSourceCloudflareWAFGroupsRead. run.
  rewrite Hcfg. unfold expandFilterWAFGroups. by rewrite Hname, Hpat.
Qed.

(** C3. With a name pattern in the filter that compiles to [re], a read
    that succeeds writes into [groups] exactly the items of the listed
    groups whose name matches [re] and which pass the mode criterion, in
    the order fetched; every item written has a name that matches.  (This
    holds for the empty pattern as well.) *)
Theorem name_filter_keeps_exactly_matching
    (meta : API) (d : ResourceData) (l : list Request) (w' : World)
    (m : gmap string string) (rest : list (option (gmap string string)))
    (pat : string) (re : Regexp) :
  d_Get_blocks d "filter" = Some m :: rest →
  m !! "name" = Some pat →
  Compile pat = Ok re →
  call (Read meta) {| rd := d; log := l |} = (None, w') →
  let zoneID := d_Get_string d ZoneIDSchemaKey in
  let mode := default "" (m !! "mode") in
  let keep := fun group =>
    Match re (cloudflare.Name group)
    && (bool_decide (mode = "")
        || bool_decide (cloudflare.Mode group = mode)) in
  groups (rd w') = detail <$> kept keep meta zoneID (packages meta zoneID d)
  ∧ ∀ item, item ∈ groups (rd w') →
      ∃ name, item !! "name" = Some (VString name) ∧ Match re name = true.
Proof.
  intros Hcfg Hname Hpat Hcall zoneID mode keep.
  apply Read_success in Hcall as (filter & Hfilter & Hgroups & _).
  rewrite Hcfg in Hfilter.
  apply expandFilterWAFGroups_Ok in Hfilter as [Hmode Hre].
  rewrite Hname in Hre. destruct Hre as (re' & Hpat' & Hre).
  assert (re' = re) as -> by congruence.
  assert (Hkeep : passes filter = keep).
  { unfold passes, keep, mode. by rewrite Hre, Hmode. }
  fold zoneID in Hgroups. rewrite Hkeep in Hgroups.
  split; [exact Hgroups|].
  intros item. rewrite Hgroups, list_elem_of_fmap.
  intros ([pkg group] & -> & Hin). apply elem_of_kept in Hin.
  exists (cloudflare.Name group). split.
  - exact (groupDetail_name pkg group).
  - unfold keep in Hin. cbn in Hin. by apply andb_prop in Hin as [? _].
Qed.



(** C5. With a filter without criteria (the empty pattern, if given,
    matching every text), a read that succeeds writes into [groups] an
    item for every group of every package listed, in the order fetched. *)
Theorem no_criteria_returns_everything
    (meta : API) (d : ResourceData) (l : list Request) (w' : World) :
  (∀ re text, Compile "" = Ok re → Match re text = true) →
  no_criteria (d_Get_blocks d "filter") →
  call (Read meta) {| rd := d; log := l |} = (None, w') →
  let zoneID := d_Get_string d ZoneIDSchemaKey in
  groups (rd w') =
  pkg ← packages meta zoneID d; groupDetail pkg <$> listed meta zoneID pkg.
Proof.
  intros Hempty Hcfg Hcall zoneID.
  apply Read_success in Hcall as (filter & Hfilter & Hgroups & _).
  fold zoneID in Hgroups. rewrite Hgroups. apply kept_all.
  intros group. unfold passes.
  destruct (d_Get_blocks d "filter") as [|[m|] rest].
  - by injection Hfilter as <-.
  - apply expandFilterWAFGroups_Ok in Hfilter as [Hmode Hre].
    destruct Hcfg as [Hname Hm]. rewrite Hm in Hmode. rewrite Hmode. cbn.
    rewrite andb_true_r.
    destruct (m !! "name") as [pat|]; cbn in Hname.
    + subst pat. destruct Hre as (re & Hre & ->). by apply Hempty.
    + by rewrite Hre.
  - by injection Hfilter as <-.
Qed.

(** C6. The identifier that a successful read sets is a function of the
    identifiers of the matched groups, in order: two reads, whatever their
    resource data and whatever the API answered, that leave the same list
    of matched identifiers leave the same identifier. *)
Theorem identifier_determined_by_matched_ids
    (meta1 meta2 : API) (d1 d2 : ResourceData) (l1 l2 : list Request)
    (w1' w2' : World) :
  call (Read meta1) {| rd := d1; log := l1 |} = (None, w1') →
  call (Read meta2) {| rd := d2; log := l2 |} = (None, w2') →
  matchedIds (rd w1') = matchedIds (rd w2') →
  Id (rd w1') = Id (rd w2').
Proof.
  intros Hcall1 Hcall2.
  apply Read_success in Hcall1 as (filter1 & _ & Hgroups1 & ->).
  apply Read_success in Hcall2 as (filter2 & _ & Hgroups2 & ->).
  unfold matchedIds. rewrite Hgroups1, Hgroups2, !matchedIds_details.
  by intros ->.
Qed.

(** C8. The filter with name [^bot] and mode [on], applied to the groups
    bot-detect/on, bot-detect/off and sql-inject/on of one package, keeps
    the first group and nothing else: the read succeeds after one request,
    [groups] holds the item of the first group and the identifier is the
    checksum of its identifier alone. *)
Theorem bot_filter_keeps_first_group
    (meta : API) (d : ResourceData) (l : list Request) (re : Regexp)
    (g1 g2 g3 : WAFGroup) :
  Compile "^bot" = Ok re →
  Match re "bot-detect" = true →
  Match re "sql-inject" = false →
  d_Get_blocks d "filter" = [Some {[ "name" := "^bot"; "mode" := "on" ]}] →
  d_Get_string d "package_id" ≠ "" →
  ListWAFGroups meta (d_Get_string d ZoneIDSchemaKey)
                (d_Get_string d "package_id") = Ok [g1; g2; g3] →
  (cloudflare.Name g1, cloudflare.Mode g1) = ("bot-detect", "on") →
  (cloudflare.Name g2, cloudflare.Mode g2) = ("bot-detect", "off") →
  (cloudflare.Name g3, cloudflare.Mode g3) = ("sql-inject", "on") →
  let pkg := {| PackageID := d_Get_string d "package_id" |} in
  call (Read meta) {| rd := d; log := l |} =
  (None,
   {| rd := d_SetId (d_Set_items d "groups" [groupDetail pkg g1]).2
                    (stringListChecksum [ID g1]);
      log := l ++ [ReqListWAFGroups (d_Get_string d ZoneIDSchemaKey)
                                    (d_Get_string d "package_id")] |}).
Proof.
  intros Hpat Hbot Hsql Hcfg Hpkg Hlist [= Hn1 Hm1] [= Hn2 Hm2] [= Hn3 Hm3] pkg.
  unfold dataSourceCloudflareWAFGroupsRead. run.
  rewrite Hcfg. unfold expandFilterWAFGroups.
  replace (({[ "name" := "^bot"; "mode" := "on" ]} : gmap string string)
             !! "name") with (Some "^bot") by reflexivity.
  replace (({[ "name" := "^bot"; "mode" := "on" ]} : gmap string string)
             !! "mode") with (Some "on") by reflexivity.
  rewrite Hpat. rewrite bool_decide_eq_false_2 by done. cbn.
  run. rewrite Hlist. cbn.
  rewrite Hn1, Hn2, Hn3, Hm1, Hm2, Hm3, Hbot, Hsql. cbn.
  reflexivity.
Qed.

End WAFGroupsClaims.

(** ** The properties on sample inputs *)

Section OnSamples.

Import WAFGroups Matching Samples.

Lemma malformed_pattern_fails_before_any_request_witness :
  MiniRE.compile "*"
  = Err "error parsing regexp: missing argument to repetition operator"
  ∧ read (query "pkg" [Some {[ "name" := "*" ]}]) =
    (Some (FromErr
             "error parsing regexp: missing argument to repetition operator"),
     query "pkg" [Some {[ "name" := "*" ]}]).
Proof.
  split; [reflexivity|].
  apply (malformed_pattern_fails_before_any_request
           (E := MiniRE.engine) "zone_id" joined api _ []
           {[ "name" := "*" ]} [] "*"); reflexivity.
Defined.

Lemma name_filter_keeps_exactly_matching_witness :
  let done_ := read (query "" [Some {[ "name" := "^bot" ]}]) in
  done_.1 = None
  ∧ matchedIds (rd done_.2) = ["g1"; "g2"]
  ∧ ∀ item, item ∈ groups (rd done_.2) →
      ∃ name, item !! "name" = Some (VString name)
              ∧ MiniRE.matchFrom [MiniRE.Bol; MiniRE.Lit "b"; MiniRE.Lit "o";
                                  MiniRE.Lit "t"] true name = true.
Proof.
  split; [reflexivity|]. split; [reflexivity|].
  apply (name_filter_keeps_exactly_matching
           (E := MiniRE.engine) "zone_id" joined api
           (rd (query "" [Some {[ "name" := "^bot" ]}])) []
           _ {[ "name" := "^bot" ]} [] "^bot"); reflexivity.
Defined.



Lemma no_criteria_returns_everything_witness :
  let done_ := read (query "" [Some {[ "name" := ""; "mode" := "" ]}]) in
  done_.1 = None
  ∧ groups (rd done_.2) = groupDetail {| PackageID := "pkg" |} <$> bots.
Proof.
  split; [reflexivity|].
  rewrite (no_criteria_returns_everything
             (E := MiniRE.engine) "zone_id" joined api
             (rd (query "" [Some {[ "name" := ""; "mode" := "" ]}])) []
             (read (query "" [Some {[ "name" := ""; "mode" := "" ]}])).2).
  - reflexivity.
  - intros re text [= <-]. by destruct text.
  - split; reflexivity.
  - reflexivity.
Defined.

Lemma identifier_determined_by_matched_ids_witness :
  let first := read (query "" [Some {[ "name" := "^bot"; "mode" := "on" ]}]) in
  let second := read (query "pkg" [Some {[ "name" := "detect$"; "mode" := "on" ]}]) in
  matchedIds (rd first.2) = ["g1"]
  ∧ matchedIds (rd second.2) = ["g1"]
  ∧ log first.2 ≠ log second.2
  ∧ Id (rd first.2) = Id (rd second.2).
Proof.
  split; [reflexivity|]. split; [reflexivity|]. split; [discriminate|].
  apply (identifier_determined_by_matched_ids
           (E := MiniRE.engine) "zone_id" joined api api
           (rd (query "" [Some {[ "name" := "^bot"; "mode" := "on" ]}]))
           (rd (query "pkg" [Some {[ "name" := "detect$"; "mode" := "on" ]}]))
           [] []); reflexivity.
Defined.

Lemma bot_filter_keeps_first_group_witness :
  let done_ := read (query "pkg" [Some {[ "name" := "^bot"; "mode" := "on" ]}]) in
  done_.1 = None
  ∧ groups (rd done_.2)
    = [groupDetail {| PackageID := "pkg" |} (group "g1" "bot-detect" "on")]
  ∧ Id (rd done_.2) = "g1,".
Proof.
  pose proof (bot_filter_keeps_first_group
                (E := MiniRE.engine) "zone_id" joined api
                (rd (query "pkg" [Some {[ "name" := "^bot"; "mode" := "on" ]}]))
                [] [MiniRE.Bol; MiniRE.Lit "b"; MiniRE.Lit "o"; MiniRE.Lit "t"]
                (group "g1" "bot-detect" "on")
                (group "g2" "bot-detect" "off")
                (group "g3" "sql-inject" "on")
                eq_refl eq_refl eq_refl eq_refl) as Hread.
  cbn zeta in Hread.
  assert (Hdone : read (query "pkg" [Some {[ "name" := "^bot"; "mode" := "on" ]}])
                  = (None, _))
    by (apply Hread; [discriminate|reflexivity..]).
  intros done_. subst done_. rewrite Hdone.
  repeat split; reflexivity.
Defined.

End OnSamples.

(** ** Zone cache variants: refresh, round trips and failures *)

Section ZoneCacheVariantsMore.

Import ZoneCacheVariants Variants.

(** After a refresh, the attribute of every variant holds the API's field. *)
Lemma refresh_lookup (value : ZoneCacheVariantsValues) (d : ResourceData)
    (v : variant) :
  setAttrs (refresh value d) !! key v = Some (field v value).
Proof.
  unfold refresh, all. cbn [setAttrs foldl].
  destruct v; cbn [key field];
    repeat (rewrite lookup_insert_ne by discriminate);
    apply lookup_insert_eq.
Qed.

(** A refresh leaves every other set attribute alone. *)
Lemma refresh_lookup_other (value : ZoneCacheVariantsValues)
    (d : ResourceData) (k : string) :
  (∀ v, key v ≠ k) →
  setAttrs (refresh value d) !! k = setAttrs d !! k.
Proof.
  intros Hk. unfold refresh, all. cbn [setAttrs foldl].
  rewrite !lookup_insert_ne;
    first [done | exact (Hk avif) | exact (Hk bmp) | exact (Hk gif)
          | exact (Hk jpeg) | exact (Hk jpg) | exact (Hk jp2)
          | exact (Hk jpg2) | exact (Hk png) | exact (Hk tif)
          | exact (Hk tiff) | exact (Hk webp)].
Qed.

(** Building the payload from an attribute that holds [l] gives [l]. *)
Lemma fromResource_lookup (d : ResourceData) (k : string) (l : list string) :
  setAttrs d !! k = Some l → fromResource d k [] = l.
Proof.
  intros Hl. unfold fromResource, d_GetOk_set, expandInterfaceToStringList.
  rewrite Hl. case_bool_decide as Hnil; cbn; [by subst|].
  by rewrite list_fmap_id.
Qed.

(** The payload built from refreshed resource data is what was written. *)
Lemma payload_of_refresh (value : ZoneCacheVariantsValues)
    (d : ResourceData) :
  cacheVariantsValuesFromResource (refresh value d) = value.
Proof.
  unfold cacheVariantsValuesFromResource. cbn zeta.
  rewrite (fromResource_lookup _ "avif" _ (refresh_lookup value d avif)),
    (fromResource_lookup _ "bmp" _ (refresh_lookup value d bmp)),
    (fromResource_lookup _ "gif" _ (refresh_lookup value d gif)),
    (fromResource_lookup _ "jpeg" _ (refresh_lookup value d jpeg)),
    (fromResource_lookup _ "jpg" _ (refresh_lookup value d jpg)),
    (fromResource_lookup _ "jp2" _ (refresh_lookup value d jp2)),
    (fromResource_lookup _ "jpg2" _ (refresh_lookup value d jpg2)),
    (fromResource_lookup _ "png" _ (refresh_lookup value d png)),
    (fromResource_lookup _ "tif" _ (refresh_lookup value d tif)),
    (fromResource_lookup _ "tiff" _ (refresh_lookup value d tiff)),
    (fromResource_lookup _ "webp" _ (refresh_lookup value d webp)).
  by destruct value.
Qed.

(** Every variant is among [all]. *)
Lemma key_in_all (k : string) :
  k ∈ key <$> all ∨ ∀ v, key v ≠ k.
Proof.
  destruct (decide (k ∈ key <$> all)) as [Hin|Hout]; [by left|right].
  intros v <-. apply Hout. apply list_elem_of_fmap. exists v.
  split; [done|]. unfold all. destruct v; set_solver.
Qed.

(** Refreshing twice with the same values is refreshing once. *)
Lemma refresh_refresh (value : ZoneCacheVariantsValues) (d : ResourceData) :
  refresh value (refresh value d) = refresh value d.
Proof.
  assert (Hsets : setAttrs (refresh value (refresh value d))
                  = setAttrs (refresh value d)).
  { apply map_eq. intros k. destruct (key_in_all k) as [Hin|Hout].
    - apply list_elem_of_fmap in Hin as (v & -> & _).
      by rewrite !refresh_lookup.
    - by rewrite refresh_lookup_other. }
  unfold refresh in *. cbn [setAttrs Id stringAttrs blockAttrs itemAttrs] in *.
  by rewrite Hsets.
Qed.

(** X1. A read that the API answers writes the API's field into the
    attribute of each of the eleven variants and returns no diagnostic;
    the identifier, the other set attributes and the attributes of other
    types stay as they were. *)
Theorem read_refreshes_every_variant
    (meta : API) (d : ResourceData) (l : list Request)
    (zoneCacheVariants : cloudflare.ZoneCacheVariants) :
  ZoneCacheVariants_ meta (Id d) = Ok zoneCacheVariants →
  let done_ :=
    call (resourceCloudflareZoneCacheVariantsRead meta)
         {| rd := d; log := l |} in
  done_.1 = None
  ∧ (∀ v, setAttrs (rd done_.2) !! key v
          = Some (field v (Value zoneCacheVariants)))
  ∧ (∀ k, (∀ v, key v ≠ k) →
          setAttrs (rd done_.2) !! k = setAttrs d !! k)
  ∧ Id (rd done_.2) = Id d
  ∧ stringAttrs (rd done_.2) = stringAttrs d
  ∧ blockAttrs (rd done_.2) = blockAttrs d
  ∧ itemAttrs (rd done_.2) = itemAttrs d.
Proof.
  intros Hanswer done_. subst done_. rewrite Read_call, Hanswer.
  cbn [fst snd rd].
  split; [done|]. split; [apply refresh_lookup|].
  split; [apply refresh_lookup_other|]. done.
Qed.

(** X2. A diagnostic from the read callback means that the request failed
    with an error that is not a not-found error; the diagnostic wraps that
    error and the resource data is untouched. *)
Theorem read_diagnostic_leaves_state
    (meta : API) (d : ResourceData) (l : list Request)
    (ds : Diagnostic) (w' : World) :
  call (resourceCloudflareZoneCacheVariantsRead meta)
       {| rd := d; log := l |} = (Some ds, w') →
  rd w' = d
  ∧ ∃ err,
      ZoneCacheVariants_ meta (Id d) = Err err
      ∧ Contains err "HTTP status 404" = false
      ∧ ds = Errorf "Error reading cache variants for zone %q: %w"
                    [Id d] err.
Proof.
  rewrite Read_call.
  destruct (ZoneCacheVariants_ meta (Id d)) as [z|err]; [discriminate|].
  unfold not_found. destruct (Contains err "HTTP status 404") eqn:H404;
    [discriminate|].
  intros [= <- <-]. eauto.
Qed.

(** X4. Against an API that accepts the update and then returns what was
    sent, the update callback succeeds, the identifier is [zone_id], every
    variant attribute holds the field that was sent, and an attribute that
    was set keeps its elements. *)
Theorem update_against_faithful_api
    (meta : API) (d : ResourceData) (l : list Request)
    (accepted stored : cloudflare.ZoneCacheVariants) :
  let zoneID := d_Get_string d "zone_id" in
  let payload := cacheVariantsValuesFromResource d in
  UpdateZoneCacheVariants meta zoneID payload = Ok accepted →
  ZoneCacheVariants_ meta zoneID = Ok stored →
  Value stored = payload →
  let done_ :=
    call (resourceCloudflareZoneCacheVariantsUpdate meta)
         {| rd := d; log := l |} in
  done_.1 = None
  ∧ Id (rd done_.2) = zoneID
  ∧ (∀ v, setAttrs (rd done_.2) !! key v = Some (field v payload))
  ∧ (∀ v, (d_GetOk_set d (key v)).2 = true →
          setAttrs (rd done_.2) !! key v = setAttrs d !! key v).
Proof.
  intros zoneID payload Hupdate Hread Hvalue done_. subst done_.
  rewrite Update_call. fold zoneID payload. rewrite Hupdate, Read_call.
  cbn [Id d_SetId]. rewrite Hread, Hvalue. cbn [fst snd rd].
  split; [done|]. split; [done|].
  assert (Hall : ∀ v, setAttrs (refresh payload (d_SetId d zoneID)) !! key v
                      = Some (field v payload))
    by apply refresh_lookup.
  split; [exact Hall|].
  intros v Hok. rewrite Hall. subst payload.
  replace (field v (cacheVariantsValuesFromResource d))
    with (fromResource d (key v) []) by (by destruct v).
  revert Hok. unfold fromResource, d_GetOk_set, expandInterfaceToStringList.
  destruct (setAttrs d !! key v) as [elems|]; cbn; [|discriminate].
  intros ->. by rewrite list_fmap_id.
Qed.

(** X5. Against such an API the update callback is idempotent: run on the
    resource data that a first run left, it sends the same payload and
    leaves the same resource data. *)
Theorem update_idempotent
    (meta : API) (d : ResourceData) (l l' : list Request)
    (accepted stored : cloudflare.ZoneCacheVariants) :
  let zoneID := d_Get_string d "zone_id" in
  let payload := cacheVariantsValuesFromResource d in
  UpdateZoneCacheVariants meta zoneID payload = Ok accepted →
  ZoneCacheVariants_ meta zoneID = Ok stored →
  Value stored = payload →
  let once :=
    call (resourceCloudflareZoneCacheVariantsUpdate meta)
         {| rd := d; log := l |} in
  let twice :=
    call (resourceCloudflareZoneCacheVariantsUpdate meta)
         {| rd := rd once.2; log := l' |} in
  cacheVariantsValuesFromResource (rd once.2) = payload
  ∧ twice.1 = None
  ∧ rd twice.2 = rd once.2.
Proof.
  intros zoneID payload Hupdate Hread Hvalue once twice.
  assert (Honce : once = (None,
            {| rd := refresh payload (d_SetId d zoneID);
               log := (l ++ [ReqUpdateZoneCacheVariants zoneID payload])
                      ++ [ReqZoneCacheVariants zoneID] |})).
  { subst once. rewrite Update_call. fold zoneID payload.
    rewrite Hupdate, Read_call. cbn [Id d_SetId]. by rewrite Hread, Hvalue. }
  subst twice. rewrite Honce. cbn [snd rd].
  rewrite payload_of_refresh. split; [done|].
  rewrite Update_call.
  change (d_Get_string (refresh payload (d_SetId d zoneID)) "zone_id")
    with zoneID.
  rewrite payload_of_refresh, Hupdate, Read_call. cbn [Id d_SetId].
  rewrite Hread, Hvalue. cbn [fst snd rd]. split; [done|].
  change (d_SetId (refresh payload (d_SetId d zoneID)) zoneID)
    with (refresh payload (d_SetId d zoneID)).
  apply refresh_refresh.
Qed.

(** X6. When the update callback returns a diagnostic, the identifier is
    [zone_id] and no attribute was changed: a failure of the update request
    or of the read after it writes nothing but the identifier. *)
Theorem update_diagnostic_keeps_attributes
    (meta : API) (d : ResourceData) (l : list Request)
    (ds : Diagnostic) (w' : World) :
  call (resourceCloudflareZoneCacheVariantsUpdate meta)
       {| rd := d; log := l |} = (Some ds, w') →
  rd w' = d_SetId d (d_Get_string d "zone_id").
Proof.
  rewrite Update_call.
  destruct (UpdateZoneCacheVariants meta _ _) as [z|err].
  - rewrite Read_call. cbn [Id d_SetId].
    destruct (ZoneCacheVariants_ meta _) as [z'|err]; [discriminate|].
    destruct (not_found err); [discriminate|]. by intros [= _ <-].
  - by intros [= _ <-].
Qed.

End ZoneCacheVariantsMore.

(** ** WAF groups: requests, failures and what a read leaves *)

Section WAFGroupsMore.

Import WAFGroups Matching Requests.

Context `{E : Engine}.
Variable ZoneIDSchemaKey : string.
Variable stringListChecksum : list string → string.

Local Abbreviation Read :=
  (dataSourceCloudflareWAFGroupsRead ZoneIDSchemaKey stringListChecksum).

(** The outer loop over packages that are all answered. *)
Lemma rangePkgList_answered client zoneID filter pkgList acc w :
  Forall (answered client zoneID) pkgList →
  let ks := kept (passes filter) client zoneID pkgList in
  rangePkgList client zoneID filter pkgList acc w =
  (Next (acc.1 ++ ((ID ∘ snd) <$> ks), acc.2 ++ (detail <$> ks)),
   {| rd := rd w; log := log w ++ groupRequests zoneID pkgList |}).
Proof.
  intros Hall. revert acc w.
  induction Hall as [|pkg pkgList [groupList Hpkg] _ IH];
    intros [groupIds groupDetails] [d l].
  - cbn. by rewrite !app_nil_r.
  - cbn [rangePkgList]. run. rewrite Hpkg, rangeGroupList_spec, IH.
    unfold kept, listed, groupRequests.
    cbn [mbind list_bind fmap list_fmap fst snd rd log]. rewrite Hpkg.
    fold (kept (passes filter) client zoneID pkgList).
    rewrite !fmap_app, <- !list_fmap_compose, <- !app_assoc.
    reflexivity.
Qed.

(** The outer loop up to the first package that is not answered. *)
Lemma rangePkgList_first_failure client zoneID filter pre pkg post acc w err :
  Forall (answered client zoneID) pre →
  ListWAFGroups client zoneID (PackageID pkg) = Err err →
  rangePkgList client zoneID filter (pre ++ pkg :: post) acc w =
  (Return (Some (FromErr err)),
   {| rd := rd w;
      log := log w ++ groupRequests zoneID pre
             ++ [ReqListWAFGroups zoneID (PackageID pkg)] |}).
Proof.
  intros Hpre Hpkg. revert acc w.
  induction Hpre as [|pkg' pre [groupList Hpkg'] _ IH]; intros acc [d l].
  - cbn [app rangePkgList]. run. by rewrite Hpkg.
  - cbn [app rangePkgList]. run. rewrite Hpkg', IH. cbn [rd log].
    unfold groupRequests. cbn [fmap list_fmap]. by rewrite <- !app_assoc.
Qed.

(** Either every package is answered, or there is a first one that is not. *)
Lemma answered_or_first_failure client zoneID (pkgList : list WAFPackage) :
  Forall (answered client zoneID) pkgList
  ∨ ∃ pre pkg post err,
      pkgList = pre ++ pkg :: post
      ∧ Forall (answered client zoneID) pre
      ∧ ListWAFGroups client zoneID (PackageID pkg) = Err err.
Proof.
  induction pkgList as [|pkg pkgList IH]; [by left|].
  destruct (ListWAFGroups client zoneID (PackageID pkg))
    as [groupList|err] eqn:Hpkg.
  - destruct IH as [Hall|(pre & pkg' & post & err & -> & Hpre & Herr)].
    + left. constructor; [by exists groupList|done].
    + right. exists (pkg :: pre), pkg', post, err.
      split; [done|]. split; [|done].
      constructor; [by exists groupList|done].
  - right. by exists [], pkg, pkgList, err.
Qed.

#[local] Arguments rangePkgList : simpl never.
#[local] Arguments kept : simpl never.

(** The read callback once the filter is built and the packages are known. *)
Lemma Read_from_packages meta d l filter :
  expandFilterWAFGroups (d_Get_blocks d "filter") = Ok filter →
  (d_Get_string d "package_id" = "" →
   ∃ pkgList, ListWAFPackages meta (d_Get_string d ZoneIDSchemaKey)
              = Ok pkgList) →
  let zoneID := d_Get_string d ZoneIDSchemaKey in
  call (Read meta) {| rd := d; log := l |} =
  match rangePkgList meta zoneID filter (packages meta zoneID d) ([], [])
                     {| rd := d; log := l ++ packageRequests zoneID d |} with
  | (Next (groupIds, groupDetails), w1) =>
      (None,
       {| rd := d_SetId (d_Set_items (rd w1) "groups" groupDetails).2
                        (stringListChecksum groupIds);
          log := log w1 |})
  | (Return ds, w1) => (ds, w1)
  end.
Proof.
  intros Hfilter Hpkgs zoneID.
  unfold dataSourceCloudflareWAFGroupsRead, packages, packageRequests. run.
  rewrite Hfilter. fold zoneID.
  case_bool_decide as Hpkg; cbn.
  - destruct (Hpkgs Hpkg) as [pkgList HpkgList]. fold zoneID in HpkgList.
    rewrite HpkgList.
    by destruct (rangePkgList meta zoneID filter pkgList ([], []) _)
      as [[[groupIds groupDetails]|ds] w1].
  - rewrite app_nil_r.
    by destruct (rangePkgList meta zoneID filter _ ([], []) _)
      as [[[groupIds groupDetails]|ds] w1].
Qed.

(** The read callback when the filter does not compile. *)
Lemma Read_filter_Err meta d l err :
  expandFilterWAFGroups (d_Get_blocks d "filter") = Err err →
  call (Read meta) {| rd := d; log := l |} =
  (Some (FromErr err), {| rd := d; log := l |}).
Proof.
  intros Hfilter. unfold dataSourceCloudflareWAFGroupsRead. run.
  by rewrite Hfilter.
Qed.

(** The read callback when the packages cannot be listed. *)
Lemma Read_packages_Err meta d l filter err :
  expandFilterWAFGroups (d_Get_blocks d "filter") = Ok filter →
  d_Get_string d "package_id" = "" →
  ListWAFPackages meta (d_Get_string d ZoneIDSchemaKey) = Err err →
  call (Read meta) {| rd := d; log := l |} =
  (Some (FromErr err),
   {| rd := d;
      log := l ++ [ReqListWAFPackages (d_Get_string d ZoneIDSchemaKey)] |}).
Proof.
  intros Hfilter Hpkg Herr. unfold dataSourceCloudflareWAFGroupsRead. run.
  rewrite Hfilter. rewrite bool_decide_eq_true_2 by done. cbn.
  by rewrite Herr.
Qed.

(** The read callback when every request is answered. *)
Lemma Read_answered meta d l filter :
  expandFilterWAFGroups (d_Get_blocks d "filter") = Ok filter →
  (d_Get_string d "package_id" = "" →
   ∃ pkgList, ListWAFPackages meta (d_Get_string d ZoneIDSchemaKey)
              = Ok pkgList) →
  let zoneID := d_Get_string d ZoneIDSchemaKey in
  let pkgs := packages meta zoneID d in
  let ks := kept (passes filter) meta zoneID pkgs in
  Forall (answered meta zoneID) pkgs →
  call (Read meta) {| rd := d; log := l |} =
  (None,
   {| rd := d_SetId (d_Set_items d "groups" (detail <$> ks)).2
                    (stringListChecksum ((ID ∘ snd) <$> ks));
      log := (l ++ packageRequests zoneID d) ++ groupRequests zoneID pkgs |}).
Proof.
  intros Hfilter Hpkgs zoneID pkgs ks Hall.
  rewrite (Read_from_packages meta d l filter Hfilter Hpkgs).
  fold zoneID pkgs. by rewrite rangePkgList_answered.
Qed.

(** The read callback when some package is not answered. *)
Lemma Read_first_failure meta d l filter pre pkg post err :
  expandFilterWAFGroups (d_Get_blocks d "filter") = Ok filter →
  (d_Get_string d "package_id" = "" →
   ∃ pkgList, ListWAFPackages meta (d_Get_string d ZoneIDSchemaKey)
              = Ok pkgList) →
  let zoneID := d_Get_string d ZoneIDSchemaKey in
  packages meta zoneID d = pre ++ pkg :: post →
  Forall (answered meta zoneID) pre →
  ListWAFGroups meta zoneID (PackageID pkg) = Err err →
  call (Read meta) {| rd := d; log := l |} =
  (Some (FromErr err),
   {| rd := d;
      log := (l ++ packageRequests zoneID d) ++ groupRequests zoneID pre
             ++ [ReqListWAFGroups zoneID (PackageID pkg)] |}).
Proof.
  intros Hfilter Hpkgs zoneID Hsplit Hpre Herr.
  rewrite (Read_from_packages meta d l filter Hfilter Hpkgs).
  fold zoneID. rewrite Hsplit.
  by rewrite (rangePkgList_first_failure _ _ _ _ _ _ _ _ err).
Qed.

(** The ways a read can end. *)
Lemma Read_cases meta d l :
  let zoneID := d_Get_string d ZoneIDSchemaKey in
  let done_ := call (Read meta) {| rd := d; log := l |} in
  (∃ err, expandFilterWAFGroups (d_Get_blocks d "filter") = Err err
          ∧ done_ = (Some (FromErr err), {| rd := d; log := l |}))
  ∨ (∃ filter err,
        expandFilterWAFGroups (d_Get_blocks d "filter") = Ok filter
        ∧ d_Get_string d "package_id" = ""
        ∧ ListWAFPackages meta zoneID = Err err
        ∧ done_ = (Some (FromErr err),
                   {| rd := d; log := l ++ [ReqListWAFPackages zoneID] |}))
  ∨ (∃ filter pre pkg post err,
        expandFilterWAFGroups (d_Get_blocks d "filter") = Ok filter
        ∧ (d_Get_string d "package_id" = "" →
           ∃ pkgList, ListWAFPackages meta zoneID = Ok pkgList)
        ∧ packages meta zoneID d = pre ++ pkg :: post
        ∧ Forall (answered meta zoneID) pre
        ∧ ListWAFGroups meta zoneID (PackageID pkg) = Err err
        ∧ done_ =
          (Some (FromErr err),
           {| rd := d;
              log := (l ++ packageRequests zoneID d)
                     ++ groupRequests zoneID pre
                     ++ [ReqListWAFGroups zoneID (PackageID pkg)] |}))
  ∨ (∃ filter,
        expandFilterWAFGroups (d_Get_blocks d "filter") = Ok filter
        ∧ (d_Get_string d "package_id" = "" →
           ∃ pkgList, ListWAFPackages meta zoneID = Ok pkgList)
        ∧ Forall (answered meta zoneID) (packages meta zoneID d)
        ∧ let ks := kept (passes filter) meta zoneID
                         (packages meta zoneID d) in
          done_ =
          (None,
           {| rd := d_SetId (d_Set_items d "groups" (detail <$> ks)).2
                            (stringListChecksum ((ID ∘ snd) <$> ks));
              log := (l ++ packageRequests zoneID d)
                     ++ groupRequests zoneID (packages meta zoneID d) |})).
Proof.
  intros zoneID done_. subst done_.
  destruct (expandFilterWAFGroups (d_Get_blocks d "filter"))
    as [filter|err] eqn:Hfilter.
  2: { left. exists err. split; [done|]. by apply Read_filter_Err. }
  right.
  assert (Hpkgs : (d_Get_string d "package_id" = "" →
                   ∃ pkgList, ListWAFPackages meta zoneID = Ok pkgList)
                  ∨ ∃ err, d_Get_string d "package_id" = ""
                           ∧ ListWAFPackages meta zoneID = Err err).
  { destruct (ListWAFPackages meta zoneID) as [pkgList|err]; [left; eauto|].
    destruct (decide (d_Get_string d "package_id" = "")) as [Hpkg|Hpkg].
    - right. eauto.
    - left. intros Hpkg'. by destruct Hpkg. }
  destruct Hpkgs as [Hpkgs|(err & Hpkg & Herr)].
  2: { left. exists filter, err. repeat (split; [done|]).
       by apply Read_packages_Err with filter. }
  right.
  destruct (answered_or_first_failure meta zoneID (packages meta zoneID d))
    as [Hall|(pre & pkg & post & err & Hsplit & Hpre & Herr)].
  - right. exists filter. repeat (split; [done|]).
    by apply Read_answered.
  - left. exists filter, pre, pkg, post, err. repeat (split; [done|]).
    by apply Read_first_failure with filter post.
Qed.

End WAFGroupsMore.

Section WAFGroupsExtras.

Import WAFGroups Matching Requests WAFGroupsSchema.

Context `{E : Engine}.
Variable ZoneIDSchemaKey : string.
Variable stringListChecksum : list string → string.

Local Abbreviation Read :=
  (dataSourceCloudflareWAFGroupsRead ZoneIDSchemaKey stringListChecksum).

(** What passes a test is a sublist of what was there. *)
Lemma filter_sublist {A} (f : A → bool) (l : list A) :
  sublist (List.filter f l) l.
Proof.
  induction l as [|x l IH]; cbn; [constructor|].
  destruct (f x); by constructor.
Qed.

(** What is kept is a sublist of what the API lists. *)
Lemma kept_sublist keep client zoneID pkgs :
  sublist (detail <$> kept keep client zoneID pkgs)
          (pkg ← pkgs; groupDetail pkg <$> listed client zoneID pkg).
Proof.
  unfold kept. induction pkgs as [|pkg pkgs IH]; [constructor|].
  cbn [mbind list_bind]. rewrite fmap_app. apply sublist_app; [|exact IH].
  rewrite <- list_fmap_compose. apply fmap_sublist, filter_sublist.
Qed.

(** What is kept comes from one of the packages. *)
Lemma elem_of_kept_package keep client zoneID pkgs pg :
  pg ∈ kept keep client zoneID pkgs → pg.1 ∈ pkgs.
Proof.
  unfold kept. rewrite list_elem_of_bind.
  intros (pkg & Hin & Hpkg). by apply list_elem_of_fmap in Hin as (g & -> & _).
Qed.

Lemma groupDetail_package_id pkg group :
  groupDetail pkg group !! "package_id" = Some (VString (PackageID pkg)).
Proof. reflexivity. Qed.

(** An error from building the filter is the error of compiling the name
    of the first block. *)
Lemma expandFilter_Err_inv
    (cfg : list (option (gmap string string))) (err : error) :
  expandFilterWAFGroups cfg = Err err →
  ∃ m rest pat,
    cfg = Some m :: rest ∧ m !! "name" = Some pat ∧ Compile pat = Err err.
Proof.
  destruct cfg as [|[m|] rest]; [discriminate| |discriminate].
  unfold expandFilterWAFGroups.
  destruct (m !! "name") as [pat|] eqn:Hname;
    [destruct (Compile pat) as [re|err'] eqn:Hpat|];
    try (by destruct (m !! "mode")).
  intros [= <-]. by exists m, rest, pat.
Qed.

(** X7. Building the filter fails in one way only: the first block is
    there, holds a name, and the name does not compile; the error is the
    compile error. *)
Theorem expandFilter_fails_only_on_pattern
    (cfg : list (option (gmap string string))) (err : error) :
  expandFilterWAFGroups cfg = Err err
  ↔ ∃ m rest pat,
      cfg = Some m :: rest ∧ m !! "name" = Some pat ∧ Compile pat = Err err.
Proof.
  split.
  - destruct cfg as [|[m|] rest]; [discriminate| |discriminate].
    unfold expandFilterWAFGroups.
    destruct (m !! "name") as [pat|] eqn:Hname.
    + destruct (Compile pat) as [re|err'] eqn:Hpat.
      * by destruct (m !! "mode").
      * intros [= <-]. by exists m, rest, pat.
    + by destruct (m !! "mode").
  - intros (m & rest & pat & -> & Hname & Hpat).
    unfold expandFilterWAFGroups. by rewrite Hname, Hpat.
Qed.

(** X8. Only the first filter block counts: blocks after it change
    nothing. *)
Theorem expandFilter_reads_first_block_only
    (block : option (gmap string string))
    (rest : list (option (gmap string string))) :
  expandFilterWAFGroups (block :: rest) = expandFilterWAFGroups [block].
Proof. by destruct block. Qed.

(** X9. The read callback returns no diagnostic exactly when the filter
    compiles, the packages can be listed (if no [package_id] is given) and
    the groups of every package can be listed. *)
Theorem read_succeeds_iff
    (meta : API) (d : ResourceData) (l : list Request) :
  let zoneID := d_Get_string d ZoneIDSchemaKey in
  (call (Read meta) {| rd := d; log := l |}).1 = None
  ↔ (∃ filter, expandFilterWAFGroups (d_Get_blocks d "filter") = Ok filter)
    ∧ (d_Get_string d "package_id" = "" →
       ∃ pkgList, ListWAFPackages meta zoneID = Ok pkgList)
    ∧ Forall (answered meta zoneID) (packages meta zoneID d).
Proof.
  intros zoneID. split.
  - destruct (Read_cases ZoneIDSchemaKey stringListChecksum meta d l)
      as [(err & _ & ->)|[(filter & err & _ & _ & _ & ->)
         |[(filter & pre & pkg & post & err & _ & _ & _ & _ & _ & ->)
          |(filter & Hfilter & Hpkgs & Hall & _)]]];
      try discriminate.
    eauto.
  - intros ((filter & Hfilter) & Hpkgs & Hall).
    by rewrite (Read_answered ZoneIDSchemaKey stringListChecksum
                  meta d l filter Hfilter Hpkgs Hall).
Qed.

(** X10. A read that returns a diagnostic has written nothing: the resource
    data is as it was.  The diagnostic is, passed through [diag.FromErr]
    as it came, the error of compiling the name of the first filter block,
    or the error of the request for the packages, or the error of the
    request for the groups of the first package that could not be
    listed. *)
Theorem read_diagnostic_writes_nothing
    (meta : API) (d : ResourceData) (l : list Request)
    (ds : Diagnostic) (w' : World) :
  call (Read meta) {| rd := d; log := l |} = (Some ds, w') →
  let zoneID := d_Get_string d ZoneIDSchemaKey in
  rd w' = d
  ∧ ∃ err,
      ds = FromErr err
      ∧ ((∃ m rest pat,
            d_Get_blocks d "filter" = Some m :: rest
            ∧ m !! "name" = Some pat
            ∧ Compile pat = Err err)
         ∨ (d_Get_string d "package_id" = ""
            ∧ ListWAFPackages meta zoneID = Err err)
         ∨ (∃ pre pkg post,
              packages meta zoneID d = pre ++ pkg :: post
              ∧ Forall (answered meta zoneID) pre
              ∧ ListWAFGroups meta zoneID (PackageID pkg) = Err err)).
Proof.
  intros Hcall zoneID. revert Hcall.
  destruct (Read_cases ZoneIDSchemaKey stringListChecksum meta d l)
    as [(err & Hfilter & ->)|[(filter & err & _ & Hpkg & Herr & ->)
       |[(filter & pre & pkg & post & err & _ & _ & Hsplit & Hpre & Herr & ->)
        |(filter & _ & _ & _ & ->)]]];
    try discriminate; intros [= <- <-]; (split; [done|]); exists err;
    (split; [done|]).
  - left. by apply expandFilter_Err_inv.
  - right. left. done.
  - right. right. by exists pre, pkg, post.
Qed.

(** X11. The read stops at the first package whose groups cannot be listed:
    the error of that request is the diagnostic, the packages after it are
    not requested, and nothing is written. *)
Theorem read_stops_at_first_failing_package
    (meta : API) (d : ResourceData) (l : list Request)
    (filter : searchFilterWAFGroups) (pre post : list WAFPackage)
    (pkg : WAFPackage) (err : error) :
  let zoneID := d_Get_string d ZoneIDSchemaKey in
  expandFilterWAFGroups (d_Get_blocks d "filter") = Ok filter →
  (d_Get_string d "package_id" = "" →
   ∃ pkgList, ListWAFPackages meta zoneID = Ok pkgList) →
  packages meta zoneID d = pre ++ pkg :: post →
  Forall (answered meta zoneID) pre →
  ListWAFGroups meta zoneID (PackageID pkg) = Err err →
  call (Read meta) {| rd := d; log := l |} =
  (Some (FromErr err),
   {| rd := d;
      log := (l ++ packageRequests zoneID d) ++ groupRequests zoneID pre
             ++ [ReqListWAFGroups zoneID (PackageID pkg)] |}).
Proof.
  intros zoneID Hfilter Hpkgs Hsplit Hpre Herr.
  by apply Read_first_failure with filter post.
Qed.

(** X12. With a [package_id], the read sends one request, for the groups of
    that package, and never asks for the packages of the zone. *)
Theorem package_id_means_one_request
    (meta : API) (d : ResourceData) (l : list Request)
    (filter : searchFilterWAFGroups) :
  expandFilterWAFGroups (d_Get_blocks d "filter") = Ok filter →
  d_Get_string d "package_id" ≠ "" →
  log (call (Read meta) {| rd := d; log := l |}).2 =
  l ++ [ReqListWAFGroups (d_Get_string d ZoneIDSchemaKey)
                         (d_Get_string d "package_id")].
Proof.
  intros Hfilter Hpkg.
  set (zoneID := d_Get_string d ZoneIDSchemaKey).
  set (pkg := {| PackageID := d_Get_string d "package_id" |}).
  assert (Hpkgs : d_Get_string d "package_id" = "" →
                  ∃ pkgList, ListWAFPackages meta zoneID = Ok pkgList)
    by done.
  assert (Hlist : packages meta zoneID d = [pkg]).
  { unfold packages. by rewrite bool_decide_eq_false_2. }
  assert (Hnone : packageRequests zoneID d = []).
  { unfold packageRequests. by rewrite bool_decide_eq_false_2. }
  destruct (ListWAFGroups meta zoneID (PackageID pkg))
    as [groupList|err] eqn:Hanswer.
  - rewrite (Read_answered ZoneIDSchemaKey stringListChecksum
               meta d l filter Hfilter Hpkgs).
    + fold zoneID. rewrite Hlist, Hnone. cbn. by rewrite app_nil_r.
    + fold zoneID. rewrite Hlist. constructor; [by exists groupList|done].
  - rewrite (Read_first_failure ZoneIDSchemaKey stringListChecksum
               meta d l filter [] pkg [] err Hfilter Hpkgs Hlist);
      [|done|done].
    fold zoneID. rewrite Hnone. cbn. by rewrite app_nil_r.
Qed.

(** X13. A read that succeeds changes the [groups] attribute and the
    identifier and nothing else: the string, set and block attributes and
    the other computed lists are as they were. *)
Theorem read_changes_groups_and_id_only
    (meta : API) (d : ResourceData) (l : list Request) (w' : World) :
  call (Read meta) {| rd := d; log := l |} = (None, w') →
  stringAttrs (rd w') = stringAttrs d
  ∧ setAttrs (rd w') = setAttrs d
  ∧ blockAttrs (rd w') = blockAttrs d
  ∧ ∀ k, k ≠ "groups" → itemAttrs (rd w') !! k = itemAttrs d !! k.
Proof.
  destruct (Read_cases ZoneIDSchemaKey stringListChecksum meta d l)
    as [(err & _ & ->)|[(filter & err & _ & _ & _ & ->)
       |[(filter & pre & pkg & post & err & _ & _ & _ & _ & _ & ->)
        |(filter & _ & _ & _ & ->)]]];
    try discriminate.
  intros [= <-]. cbn. repeat (split; [done|]).
  intros k Hk. by rewrite lookup_insert_ne.
Qed.

(** X14. The items that a successful read writes are a sublist of the items
    of everything the API listed: filtering drops items, it neither
    reorders nor invents them. *)
Theorem read_result_is_sublist_of_listing
    (meta : API) (d : ResourceData) (l : list Request) (w' : World) :
  call (Read meta) {| rd := d; log := l |} = (None, w') →
  let zoneID := d_Get_string d ZoneIDSchemaKey in
  sublist (groups (rd w'))
          (pkg ← packages meta zoneID d;
           groupDetail pkg <$> listed meta zoneID pkg).
Proof.
  intros Hcall zoneID.
  apply Read_success in Hcall as (filter & _ & -> & _).
  apply kept_sublist.
Qed.

(** X15. Reading again changes nothing: a read on the resource data that a
    successful read left, against the same API, succeeds and leaves the
    same resource data. *)
Theorem read_idempotent
    (meta : API) (d : ResourceData) (l l' : list Request) (w' : World) :
  call (Read meta) {| rd := d; log := l |} = (None, w') →
  let again := call (Read meta) {| rd := rd w'; log := l' |} in
  again.1 = None ∧ rd again.2 = rd w'.
Proof.
  destruct (Read_cases ZoneIDSchemaKey stringListChecksum meta d l)
    as [(err & _ & ->)|[(filter & err & _ & _ & _ & ->)
       |[(filter & pre & pkg & post & err & _ & _ & _ & _ & _ & ->)
        |(filter & Hfilter & Hpkgs & Hall & ->)]]];
    try discriminate.
  intros [= <-] again. subst again. cbn [rd].
  set (zoneID := d_Get_string d ZoneIDSchemaKey) in *.
  set (ks := kept (passes filter) meta zoneID (packages meta zoneID d)) in *.
  set (d' := d_SetId (d_Set_items d "groups" (detail <$> ks)).2
                     (stringListChecksum ((ID ∘ snd) <$> ks))).
  pose proof (Read_answered ZoneIDSchemaKey stringListChecksum
                meta d' l' filter Hfilter Hpkgs Hall) as Hagain.
  match goal with
  | |- context [call ?body ?w] =>
      change (call body w) with (call (Read meta) {| rd := d'; log := l' |})
  end.
  rewrite Hagain.
  split; [done|]. cbn [snd rd].
  change (packages meta (d_Get_string d' ZoneIDSchemaKey) d')
    with (packages meta zoneID d).
  change (d_Get_string d' ZoneIDSchemaKey) with zoneID. fold ks.
  unfold d', d_SetId, d_Set_items. cbn. by rewrite insert_insert_eq.
Qed.

(** X16. Every item appended for a kept group fits the element schema of
    the [groups] attribute: it has exactly the declared keys, each with a
    value of the declared type. *)
Theorem group_items_conform_to_schema (pkg : WAFPackage) (group : WAFGroup) :
  (dataSourceCloudflareWAFGroups ZoneIDSchemaKey !! "groups") ≫= Elem
    = (if bool_decide (ZoneIDSchemaKey = "groups") then None
       else Some groupsElem)
  ∧ dom (groupDetail pkg group) = dom groupsElem
  ∧ map_Forall (fun k v => Type_ <$> groupsElem !! k = Some (typeOf v))
               (groupDetail pkg group).
Proof.
  split; [|split].
  - unfold dataSourceCloudflareWAFGroups. cbn [list_to_map foldr curry fst snd].
    case_bool_decide as Hkey.
    + subst. reflexivity.
    + rewrite lookup_insert_ne by done. reflexivity.
  - unfold groupDetail, groupsElem. cbn [list_to_map foldr curry fst snd].
    rewrite !dom_insert_L. reflexivity.
  - unfold groupDetail. cbn [list_to_map foldr curry fst snd].
    repeat (apply map_Forall_insert_2; [reflexivity|]).
    apply map_Forall_empty.
Qed.

(** X17. Every item that a successful read writes carries the identifier of
    the package it was fetched from; with a [package_id], that is the
    [package_id] itself. *)
Theorem items_carry_their_package
    (meta : API) (d : ResourceData) (l : list Request) (w' : World) :
  call (Read meta) {| rd := d; log := l |} = (None, w') →
  let zoneID := d_Get_string d ZoneIDSchemaKey in
  ∀ item, item ∈ groups (rd w') →
    (∃ pkg, pkg ∈ packages meta zoneID d
            ∧ item !! "package_id" = Some (VString (PackageID pkg)))
    ∧ (d_Get_string d "package_id" ≠ "" →
       item !! "package_id" = Some (VString (d_Get_string d "package_id"))).
Proof.
  intros Hcall zoneID item.
  apply Read_success in Hcall as (filter & _ & -> & _). fold zoneID.
  rewrite list_elem_of_fmap. intros ([pkg group] & -> & Hin).
  apply elem_of_kept_package in Hin. cbn [fst] in Hin.
  unfold detail. cbn [fst snd]. rewrite groupDetail_package_id.
  split; [by exists pkg|].
  intros Hpkg. revert Hin. unfold packages.
  rewrite bool_decide_eq_false_2 by done.
  by intros ->%list_elem_of_singleton.
Qed.

(** X18. A zone without packages is no error: the read succeeds after the
    one request for the packages, writes the empty list and sets the
    identifier to the checksum of no identifiers. *)
Theorem zone_without_packages
    (meta : API) (d : ResourceData) (l : list Request)
    (filter : searchFilterWAFGroups) :
  expandFilterWAFGroups (d_Get_blocks d "filter") = Ok filter →
  d_Get_string d "package_id" = "" →
  ListWAFPackages meta (d_Get_string d ZoneIDSchemaKey) = Ok [] →
  call (Read meta) {| rd := d; log := l |} =
  (None,
   {| rd := d_SetId (d_Set_items d "groups" []).2 (stringListChecksum []);
      log := l ++ [ReqListWAFPackages (d_Get_string d ZoneIDSchemaKey)] |}).
Proof.
  intros Hfilter Hpkg Hlist.
  set (zoneID := d_Get_string d ZoneIDSchemaKey) in *.
  assert (Hnone : packages meta zoneID d = []).
  { unfold packages. by rewrite bool_decide_eq_true_2, Hlist. }
  rewrite (Read_answered ZoneIDSchemaKey stringListChecksum
             meta d l filter Hfilter); fold zoneID.
  - rewrite Hnone. unfold packageRequests.
    rewrite bool_decide_eq_true_2 by done. cbn. by rewrite app_nil_r.
  - eauto.
  - rewrite Hnone. constructor.
Qed.

(** X19. A read that succeeds has sent the request for the packages, if no
    [package_id] was given, and then one request for the groups of each
    package, in the order of the packages, and no other request. *)
Theorem read_success_requests
    (meta : API) (d : ResourceData) (l : list Request) (w' : World) :
  call (Read meta) {| rd := d; log := l |} = (None, w') →
  let zoneID := d_Get_string d ZoneIDSchemaKey in
  log w' = (l ++ packageRequests zoneID d)
           ++ groupRequests zoneID (packages meta zoneID d).
Proof.
  destruct (Read_cases ZoneIDSchemaKey stringListChecksum meta d l)
    as [(err & _ & ->)|[(filter & err & _ & _ & _ & ->)
       |[(filter & pre & pkg & post & err & _ & _ & _ & _ & _ & ->)
        |(filter & _ & _ & _ & ->)]]];
    try discriminate.
  by intros [= <-].
Qed.

(** X20. After a read that succeeds, the identifier is the checksum of the
    identifiers held by the items of [groups], in their order, and every
    item holds an identifier. *)
Theorem identifier_is_checksum_of_groups
    (meta : API) (d : ResourceData) (l : list Request) (w' : World) :
  call (Read meta) {| rd := d; log := l |} = (None, w') →
  Id (rd w') = stringListChecksum (matchedIds (rd w'))
  ∧ List.length (matchedIds (rd w')) = List.length (groups (rd w')).
Proof.
  intros Hcall.
  apply Read_success in Hcall as (filter & _ & Hgroups & ->).
  unfold matchedIds. rewrite Hgroups, matchedIds_details.
  split; [done|]. by rewrite !length_fmap.
Qed.

End WAFGroupsExtras.

(** ** The further properties on sample inputs *)

Section MoreOnSamples.

Import ZoneCacheVariants Variants WAFGroups Matching Requests Samples.
Import MoreSamples.

Lemma read_refreshes_every_variant_witness :
  let done_ :=
    call (resourceCloudflareZoneCacheVariantsRead (stored webp_only))
         zone_world in
  ZoneCacheVariants_ (stored webp_only) (Id zone_data)
  = Ok {| Value := webp_only |}
  ∧ setAttrs (rd done_.2) !! "avif" = Some []
  ∧ setAttrs (rd done_.2) !! "webp" = Some ["image/webp"]
  ∧ Id (rd done_.2) = Id zone_data.
Proof.
  intros done_. split; [reflexivity|].
  destruct (read_refreshes_every_variant (stored webp_only) zone_data []
              {| Value := webp_only |} eq_refl)
    as (_ & Hvariants & _ & Hid & _).
  split; [exact (Hvariants avif)|]. split; [exact (Hvariants webp)|].
  exact Hid.
Defined.

Lemma read_diagnostic_leaves_state_witness :
  let done_ :=
    call (resourceCloudflareZoneCacheVariantsRead broken) zone_world in
  done_.1 = Some (Errorf "Error reading cache variants for zone %q: %w"
                         [Id zone_data] "HTTP status 500: internal error")
  ∧ rd done_.2 = zone_data.
Proof.
  intros done_. split; [reflexivity|].
  apply (read_diagnostic_leaves_state broken zone_data []
           (Errorf "Error reading cache variants for zone %q: %w"
                   [Id zone_data] "HTTP status 500: internal error")
           done_.2).
  reflexivity.
Defined.

Lemma update_against_faithful_api_witness :
  let payload := cacheVariantsValuesFromResource zone_data in
  let done_ :=
    call (resourceCloudflareZoneCacheVariantsUpdate (stored payload))
         zone_world in
  Avif payload = ["image/avif"; "image/webp"]
  ∧ done_.1 = None
  ∧ setAttrs (rd done_.2) !! "avif" = Some ["image/avif"; "image/webp"]
  ∧ setAttrs (rd done_.2) !! "webp" = Some [].
Proof.
  intros payload done_. split; [reflexivity|].
  destruct (update_against_faithful_api (stored payload) zone_data []
              {| Value := payload |} {| Value := payload |}
              eq_refl eq_refl eq_refl)
    as (Hnone & _ & Hvariants & _).
  split; [exact Hnone|].
  split; [exact (Hvariants avif)|exact (Hvariants webp)].
Defined.

Lemma update_idempotent_witness :
  let payload := cacheVariantsValuesFromResource zone_data in
  let once :=
    call (resourceCloudflareZoneCacheVariantsUpdate (stored payload))
         zone_world in
  let twice :=
    call (resourceCloudflareZoneCacheVariantsUpdate (stored payload))
         {| rd := rd once.2; log := [] |} in
  twice.1 = None ∧ rd twice.2 = rd once.2.
Proof.
  intros payload once twice.
  exact (proj2 (update_idempotent (stored payload) zone_data [] []
                  {| Value := payload |} {| Value := payload |}
                  eq_refl eq_refl eq_refl)).
Defined.

Lemma update_diagnostic_keeps_attributes_witness :
  let done_ :=
    call (resourceCloudflareZoneCacheVariantsUpdate broken)
         {| rd := d_SetId zone_data "stale"; log := [] |} in
  done_.1 ≠ None
  ∧ rd done_.2 = zone_data.
Proof.
  intros done_. split; [discriminate|].
  apply (update_diagnostic_keeps_attributes broken
           (d_SetId zone_data "stale") []
           (Errorf "error setting cache variants for zone %q: %w"
                   ["023e105f4ecef8ad9ca31a8372d0c353"]
                   "HTTP status 500: internal error")
           done_.2).
  reflexivity.
Defined.

Lemma read_diagnostic_writes_nothing_witness :
  let done_ := read_with three_packages (query "" []) in
  done_.1 = Some (FromErr "HTTP status 404: no such package")
  ∧ rd done_.2 = rd (query "" []).
Proof.
  intros done_. split; [reflexivity|].
  apply (read_diagnostic_writes_nothing (E := MiniRE.engine) "zone_id" joined
           three_packages (rd (query "" [])) []
           (FromErr "HTTP status 404: no such package") done_.2).
  reflexivity.
Defined.

Lemma read_stops_at_first_failing_package_witness :
  read_with three_packages (query "" []) =
  (Some (FromErr "HTTP status 404: no such package"),
   {| rd := rd (query "" []);
      log := [ReqListWAFPackages "zone"; ReqListWAFGroups "zone" "pkg";
              ReqListWAFGroups "zone" "lost"] |}).
Proof.
  apply (read_stops_at_first_failing_package (E := MiniRE.engine)
           "zone_id" joined three_packages (rd (query "" [])) []
           {| Name := None; Mode := "" |}
           [{| PackageID := "pkg" |}] [{| PackageID := "other" |}]
           {| PackageID := "lost" |} "HTTP status 404: no such package").
  - reflexivity.
  - intros _. eexists. reflexivity.
  - reflexivity.
  - constructor; [|constructor]. exists bots. reflexivity.
  - reflexivity.
Defined.

Lemma package_id_means_one_request_witness :
  log (read (query "pkg" [Some {[ "mode" := "on" ]}])).2
  = [ReqListWAFGroups "zone" "pkg"]
  ∧ log (read (query "lost" [Some {[ "mode" := "on" ]}])).2
    = [ReqListWAFGroups "zone" "lost"].
Proof.
  split.
  - apply (package_id_means_one_request (E := MiniRE.engine) "zone_id" joined
             api (rd (query "pkg" [Some {[ "mode" := "on" ]}])) []
             {| Name := None; Mode := "on" |}); [reflexivity|discriminate].
  - apply (package_id_means_one_request (E := MiniRE.engine) "zone_id" joined
             api (rd (query "lost" [Some {[ "mode" := "on" ]}])) []
             {| Name := None; Mode := "on" |}); [reflexivity|discriminate].
Defined.

Lemma read_changes_groups_and_id_only_witness :
  let done_ := read (query "" [Some {[ "mode" := "off" ]}]) in
  matchedIds (rd done_.2) = ["g2"]
  ∧ stringAttrs (rd done_.2) = stringAttrs (rd (query "" []))
  ∧ blockAttrs (rd done_.2)
    = {[ "filter" := [Some {[ "mode" := "off" ]}] ]}.
Proof.
  intros done_. split; [reflexivity|].
  assert (Hrun : read (query "" [Some {[ "mode" := "off" ]}])
                 = (None, done_.2)) by reflexivity.
  destruct (read_changes_groups_and_id_only (E := MiniRE.engine)
              "zone_id" joined api
              (rd (query "" [Some {[ "mode" := "off" ]}])) [] done_.2
              Hrun)
    as (Hstrings & _ & Hblocks & _).
  split; [exact Hstrings|exact Hblocks].
Defined.

Lemma read_result_is_sublist_of_listing_witness :
  let done_ := read (query "" [Some {[ "mode" := "on" ]}]) in
  matchedIds (rd done_.2) = ["g1"; "g3"]
  ∧ sublist (groups (rd done_.2))
            (groupDetail {| PackageID := "pkg" |} <$> bots).
Proof.
  intros done_. split; [reflexivity|].
  assert (Hrun : read (query "" [Some {[ "mode" := "on" ]}])
                 = (None, done_.2)) by reflexivity.
  exact (read_result_is_sublist_of_listing (E := MiniRE.engine)
           "zone_id" joined api (rd (query "" [Some {[ "mode" := "on" ]}]))
           [] done_.2 Hrun).
Defined.

Lemma read_idempotent_witness :
  let once := read (query "" [Some {[ "name" := "inject" ]}]) in
  let again := read {| rd := rd once.2; log := [] |} in
  matchedIds (rd once.2) = ["g3"]
  ∧ again.1 = None
  ∧ rd again.2 = rd once.2.
Proof.
  intros once again. split; [reflexivity|].
  assert (Hrun : read (query "" [Some {[ "name" := "inject" ]}])
                 = (None, once.2)) by reflexivity.
  exact (read_idempotent (E := MiniRE.engine) "zone_id" joined api
           (rd (query "" [Some {[ "name" := "inject" ]}])) [] []
           once.2 Hrun).
Defined.

Lemma items_carry_their_package_witness :
  let done_ := read (query "pkg" []) in
  matchedIds (rd done_.2) = ["g1"; "g2"; "g3"]
  ∧ ∀ item, item ∈ groups (rd done_.2) →
      item !! "package_id" = Some (VString "pkg").
Proof.
  intros done_. split; [reflexivity|].
  assert (Hrun : read (query "pkg" []) = (None, done_.2)) by reflexivity.
  intros item Hin.
  apply (items_carry_their_package (E := MiniRE.engine) "zone_id" joined
           api (rd (query "pkg" [])) [] done_.2 Hrun item Hin).
  discriminate.
Defined.

Lemma zone_without_packages_witness :
  let done_ := read_with (stored webp_only) (query "" []) in
  done_.1 = None
  ∧ groups (rd done_.2) = []
  ∧ Id (rd done_.2) = ""
  ∧ log done_.2 = [ReqListWAFPackages "zone"].
Proof.
  intros done_.
  pose proof (zone_without_packages (E := MiniRE.engine) "zone_id" joined
                (stored webp_only) (rd (query "" [])) []
                {| Name := None; Mode := "" |}) as Hdone.
  change (call _ _) with done_ in Hdone.
  rewrite Hdone by reflexivity. repeat split; reflexivity.
Defined.

Lemma read_success_requests_witness :
  log (read_with (stored webp_only) (query "" [])).2
  = [ReqListWAFPackages "zone"]
  ∧ log (read (query "" [])).2
    = [ReqListWAFPackages "zone"; ReqListWAFGroups "zone" "pkg"].
Proof.
  split; [reflexivity|].
  assert (Hrun : read (query "" []) = (None, (read (query "" [])).2))
    by reflexivity.
  exact (read_success_requests (E := MiniRE.engine) "zone_id" joined api
           (rd (query "" [])) [] (read (query "" [])).2 Hrun).
Defined.

Lemma identifier_is_checksum_of_groups_witness :
  let done_ := read (query "" [Some {[ "name" := "bot" ]}]) in
  matchedIds (rd done_.2) = ["g1"; "g2"]
  ∧ Id (rd done_.2) = joined (matchedIds (rd done_.2)).
Proof.
  intros done_. split; [reflexivity|].
  assert (Hrun : read (query "" [Some {[ "name" := "bot" ]}])
                 = (None, done_.2)) by reflexivity.
  exact (proj1 (identifier_is_checksum_of_groups (E := MiniRE.engine)
                  "zone_id" joined api
                  (rd (query "" [Some {[ "name" := "bot" ]}])) []
                  done_.2 Hrun)).
Defined.

End MoreOnSamples.
